(** * A file-system server confined to allowed directories

    The program is a single TypeScript module ([src/index.ts]): a path
    validator that confines every operation to a list of allowed
    directories, a text-edit engine with an exact and a whitespace-tolerant
    matching strategy, a recursive search, and the request handlers built on
    them.  This development embeds those functions and proves, or refutes
    at concrete inputs, what the specification says about them.

    Layout
    - [JsString]   the JavaScript string built-ins the program calls;
    - [NodePath]   the POSIX flavour of Node's [path] module;
    - [Minimatch]  the segment-wise glob matcher of the [minimatch] package;
    - [Fs]         the file system the program talks to, as explicit state;
    - [Server]     the program itself, function by function;
    - [Spec]       the notions of the specification, in its words;
    - [Aux]        predicates the statements need;
    - [Scenario]   concrete worlds and inputs;
    - the theorems, grouped by component. *)

From Stdlib Require Import String Ascii List Arith ZArith Lia Bool.
From stdpp Require Import gmap strings list fin_maps.

Local Open Scope string_scope.

(** [stdpp] keeps [simpl] from unfolding string concatenation; the proofs
    below compute with it. *)
#[local] Arguments String.append !s1 s2 : simpl nomatch.

(* ===================================================================== *)
(** * JavaScript strings                                                  *)
(* ===================================================================== *)

(** A JavaScript string is a sequence of UTF-16 code units.  The model keeps
    the code units below 256, so a string is a Rocq [string]; every built-in
    below is written by recursion on it, following ECMA-262. *)
Module JsString.

Fixpoint take (n : nat) (s : string) : string :=
  match n, s with
  | O, _ => EmptyString
  | S n', String c s' => String c (take n' s')
  | S _, EmptyString => EmptyString
  end.

Fixpoint drop (n : nat) (s : string) : string :=
  match n, s with
  | O, _ => s
  | S n', String _ s' => drop n' s'
  | S _, EmptyString => EmptyString
  end.

(** [s.startsWith(p)] *)
Fixpoint startsWith (s p : string) {struct p} : bool :=
  match p, s with
  | EmptyString, _ => true
  | String c p', String d s' => Ascii.eqb c d && startsWith s' p'
  | String _ _, EmptyString => false
  end.

(** [s.indexOf(sub)], with [None] for [-1]. *)
Fixpoint indexOf (s sub : string) : option nat :=
  if startsWith s sub then Some 0
  else match s with
       | EmptyString => None
       | String _ s' => option_map S (indexOf s' sub)
       end.

(** [s.includes(sub)] *)
Definition includes (s sub : string) : bool :=
  match indexOf s sub with Some _ => true | None => false end.

(** [GetSubstitution] of ECMA-262 for a string pattern: there are no
    capture groups, so [$1]..[$99] and [$<] stay as they are written, and
    only [$$], [$&], [$`] and [$'] are special. *)
Fixpoint getSubstitution (template matched before after : string) : string :=
  match template with
  | EmptyString => EmptyString
  | String "$" (String "$" r) =>
      String "$" (getSubstitution r matched before after)
  | String "$" (String "&" r) =>
      matched +:+ getSubstitution r matched before after
  | String "$" (String "`" r) =>
      before +:+ getSubstitution r matched before after
  | String "$" (String "'" r) =>
      after +:+ getSubstitution r matched before after
  | String c r => String c (getSubstitution r matched before after)
  end.

(** [s.replace(pattern, replacement)] with a string pattern: the first
    occurrence only, the replacement read as a template. *)
Definition replace (s pattern replacement : string) : string :=
  match indexOf s pattern with
  | None => s
  | Some pos =>
      let before := take pos s in
      let after := drop (pos + String.length pattern) s in
      before +:+ getSubstitution replacement pattern before after +:+ after
  end.

(** [s.split(sep)] for a one-character separator. *)
Fixpoint split (sep : ascii) (s : string) : list string :=
  match s with
  | EmptyString => [EmptyString]
  | String c s' =>
      if Ascii.eqb c sep then EmptyString :: split sep s'
      else match split sep s' with
           | h :: t => String c h :: t
           | [] => [String c EmptyString]
           end
  end.

(** [l.join(sep)] *)
Definition join (sep : string) (l : list string) : string :=
  String.concat sep l.

(** [WhiteSpace] and [LineTerminator] below 256: what [trim] strips and
    what [\s] matches. *)
Definition isWhiteSpace (c : ascii) : bool :=
  let n := nat_of_ascii c in
  Nat.eqb n 9 || Nat.eqb n 10 || Nat.eqb n 11 || Nat.eqb n 12
  || Nat.eqb n 13 || Nat.eqb n 32 || Nat.eqb n 160.

(** [s.match(/^\s*/)[0]]: the leading run of white space. *)
Fixpoint leadingWhiteSpace (s : string) : string :=
  match s with
  | EmptyString => EmptyString
  | String c s' =>
      if isWhiteSpace c then String c (leadingWhiteSpace s')
      else EmptyString
  end.

(** [s.trimStart()] *)
Fixpoint trimStart (s : string) : string :=
  match s with
  | EmptyString => EmptyString
  | String c s' => if isWhiteSpace c then trimStart s' else s
  end.

(** [s.trimEnd()] *)
Fixpoint trimEnd (s : string) : string :=
  match s with
  | EmptyString => EmptyString
  | String c s' =>
      match trimEnd s' with
      | EmptyString => if isWhiteSpace c then EmptyString
                       else String c EmptyString
      | t => String c t
      end
  end.

(** [s.trim()] *)
Definition trim (s : string) : string := trimEnd (trimStart s).

(** [s.repeat(n)] *)
Fixpoint repeat (s : string) (n : nat) : string :=
  match n with
  | O => EmptyString
  | S n' => s +:+ repeat s n'
  end.

Definition lowerChar (c : ascii) : ascii :=
  let n := nat_of_ascii c in
  if (Nat.leb 65 n && Nat.leb n 90)
     || (Nat.leb 192 n && Nat.leb n 222 && negb (Nat.eqb n 215))
  then ascii_of_nat (n + 32) else c.

(** [s.toLowerCase()] *)
Fixpoint toLowerCase (s : string) : string :=
  match s with
  | EmptyString => EmptyString
  | String c s' => String (lowerChar c) (toLowerCase s')
  end.

Definition isEmpty (s : string) : bool :=
  match s with EmptyString => true | _ => false end.

End JsString.

(* ===================================================================== *)
(** * Node's [path] module, POSIX flavour                                 *)
(* ===================================================================== *)

(** The functions of [path.posix] the program calls.  [normalizeString] of
    Node works character by character; here it works on the list of segments
    between separators, which is what it computes. *)
Module NodePath.

Definition sep : ascii := "/"%char.

Definition isAbsolute (p : string) : bool :=
  match p with String "/" _ => true | _ => false end.

Definition endsWithSep (p : string) : bool :=
  match last (JsString.split sep p) with
  | Some EmptyString => negb (JsString.isEmpty p)
  | _ => false
  end.

(** The segment stack of [normalizeString]: empty segments and [.] are
    dropped, [..] pops the last segment unless there is none or it is [..]
    itself, in which case it is kept only when [allowAboveRoot]. *)
Fixpoint normalizeSegments (allowAboveRoot : bool) (stack : list string)
    (segs : list string) : list string :=
  match segs with
  | [] => rev stack
  | seg :: rest =>
      if String.eqb seg EmptyString || String.eqb seg "." then
        normalizeSegments allowAboveRoot stack rest
      else if String.eqb seg ".." then
        match stack with
        | top :: below =>
            if String.eqb top ".." then
              normalizeSegments allowAboveRoot
                (if allowAboveRoot then ".." :: stack else stack) rest
            else normalizeSegments allowAboveRoot below rest
        | [] =>
            normalizeSegments allowAboveRoot
              (if allowAboveRoot then [".."] else []) rest
        end
      else normalizeSegments allowAboveRoot (seg :: stack) rest
  end.

Definition normalizeString (p : string) (allowAboveRoot : bool) : string :=
  JsString.join "/"
    (normalizeSegments allowAboveRoot [] (JsString.split sep p)).

(** [path.normalize(p)] *)
Definition normalize (p : string) : string :=
  if JsString.isEmpty p then "."
  else
    let abs := isAbsolute p in
    let trailing := endsWithSep p in
    let q := normalizeString p (negb abs) in
    if JsString.isEmpty q then
      if abs then "/" else if trailing then "./" else "."
    else
      let q' := if trailing then q +:+ "/" else q in
      if abs then "/" +:+ q' else q'.

(** The right-to-left loop of [path.resolve]: arguments are prepended until
    one of them is absolute; the flag tells whether one was. *)
Fixpoint resolveArgs (revArgs : list string) (resolvedPath : string)
    : string * bool :=
  match revArgs with
  | [] => (resolvedPath, false)
  | p :: rest =>
      if JsString.isEmpty p then resolveArgs rest resolvedPath
      else
        let resolvedPath' := p +:+ "/" +:+ resolvedPath in
        if isAbsolute p then (resolvedPath', true)
        else resolveArgs rest resolvedPath'
  end.

(** [path.resolve(...args)], [cwd] being [process.cwd()]. *)
Definition resolve (cwd : string) (args : list string) : string :=
  let '(resolvedPath, resolvedAbsolute) :=
    resolveArgs (rev args ++ [cwd]) EmptyString in
  let normalized := normalizeString resolvedPath (negb resolvedAbsolute) in
  if resolvedAbsolute then "/" +:+ normalized
  else if JsString.isEmpty normalized then "." else normalized.

(** [path.join(...args)] *)
Definition join (args : list string) : string :=
  match List.filter (fun a => negb (JsString.isEmpty a)) args with
  | [] => "."
  | parts => normalize (JsString.join "/" parts)
  end.

(** The scan of [path.dirname]: the index, in [1 .. length p - 1], of the
    last separator that is followed by a character other than a
    separator. *)
Fixpoint lastNameStart (i : nat) (s : string) (found : option nat)
    : option nat :=
  match s with
  | String c ((String d _) as s') =>
      lastNameStart (S i) s'
        (if Ascii.eqb c sep && negb (Ascii.eqb d sep) && negb (Nat.eqb i 0)
         then Some i else found)
  | _ => found
  end.

(** [path.dirname(p)] *)
Definition dirname (p : string) : string :=
  if JsString.isEmpty p then "."
  else
    match lastNameStart 0 p None with
    | None => if isAbsolute p then "/" else "."
    | Some e =>
        if isAbsolute p && Nat.eqb e 1 then "//" else JsString.take e p
    end.

Fixpoint dropCommon (a b : list string) : list string * list string :=
  match a, b with
  | x :: a', y :: b' => if String.eqb x y then dropCommon a' b' else (a, b)
  | _, _ => (a, b)
  end.

Definition segments (p : string) : list string :=
  List.filter (fun s => negb (JsString.isEmpty s)) (JsString.split sep p).

(** [path.relative(from, to)]: both are resolved, the common leading
    segments dropped, one [..] written for each segment left of [from]. *)
Definition relative (cwd from to : string) : string :=
  let '(f, t) := dropCommon (segments (resolve cwd [from]))
                            (segments (resolve cwd [to])) in
  JsString.join "/" (map (fun _ => "..") f ++ t).

End NodePath.

(* ===================================================================== *)
(** * The [minimatch] package                                             *)
(* ===================================================================== *)

(** [minimatch(path, pattern, {dot: true})] for patterns written with
    literal characters, [?], [*] and [**]: the path and the pattern are cut
    at runs of separators and compared segment by segment by the package's
    [matchOne].  Braces, character classes, extended globs, a leading [!] or
    [#] and escapes are outside this fragment ([inFragment] tells). *)
Module Minimatch.

Inductive part : Type :=
| GlobStar
| Segment (glob : string).

(** [s.split(/\/+/)]: a run of separators cuts once, so only the first and
    the last piece can be empty. *)
Fixpoint dropInnerEmpty (l : list string) : list string :=
  match l with
  | [] => []
  | [x] => [x]
  | x :: rest =>
      if JsString.isEmpty x then dropInnerEmpty rest
      else x :: dropInnerEmpty rest
  end.

Definition slashSplit (s : string) : list string :=
  match JsString.split NodePath.sep s with
  | [] => []
  | h :: t => h :: dropInnerEmpty t
  end.

Definition isMagic (c : ascii) : bool :=
  Ascii.eqb c "*" || Ascii.eqb c "?".

Fixpoint hasMagic (s : string) : bool :=
  match s with
  | EmptyString => false
  | String c s' => isMagic c || hasMagic s'
  end.

Definition startsWithMagic (s : string) : bool :=
  match s with String c _ => isMagic c | EmptyString => false end.

(** The regular expression of a segment: [*] is [[^/]*?], [?] is [[^/]],
    anything else stands for itself. *)
Fixpoint wild (glob : string) : string -> bool :=
  match glob with
  | EmptyString => fun s => JsString.isEmpty s
  | String c glob' =>
      if Ascii.eqb c "*" then
        fix star (s : string) : bool :=
          wild glob' s
          || match s with
             | EmptyString => false
             | String _ s' => star s'
             end
      else if Ascii.eqb c "?" then
        fun s => match s with
                 | EmptyString => false
                 | String _ s' => wild glob' s'
                 end
      else
        fun s => match s with
                 | EmptyString => false
                 | String d s' => Ascii.eqb c d && wild glob' s'
                 end
  end.

Definition isDots (f : string) : bool :=
  String.eqb f "." || String.eqb f "..".

(** One pattern segment against one path segment.  A segment without magic
    is compared as a string; one with magic never matches the empty string,
    nor [.] and [..] when it begins with the magic character. *)
Definition segmentMatch (glob f : string) : bool :=
  if hasMagic glob then
    negb (JsString.isEmpty f)
    && negb (startsWithMagic glob && isDots f)
    && wild glob f
  else String.eqb glob f.

Definition parse (seg : string) : part :=
  if String.eqb seg "**" then GlobStar else Segment seg.

(** [matchOne(file, pattern, partial = false)].  A [**] that ends the
    pattern swallows what is left of the path, which must be at least one
    segment; a [**] elsewhere tries every suffix of the path.  When the path
    runs out before the pattern the answer is [partial], that is, no. *)
Fixpoint matchOne (pattern : list part) : list string -> bool :=
  match pattern with
  | [] =>
      fun file =>
        match file with
        | [] => true
        | [f] => JsString.isEmpty f
        | _ => false
        end
  | p :: ps =>
      fun file =>
        match file with
        | [] => false
        | f :: fs =>
            match p with
            | GlobStar =>
                match ps with
                | [] => forallb (fun x => negb (isDots x)) file
                | _ :: _ =>
                    (fix swallow (rest : list string) : bool :=
                       match rest with
                       | [] => false
                       | swallowee :: rest' =>
                           matchOne ps rest
                           || (negb (isDots swallowee) && swallow rest')
                       end) file
                end
            | Segment glob => segmentMatch glob f && matchOne ps fs
            end
        end
  end.

(** Characters that start a construct outside the modelled fragment. *)
Definition isPlain (c : ascii) : bool :=
  negb (Ascii.eqb c "[" || Ascii.eqb c "]" || Ascii.eqb c "{"
        || Ascii.eqb c "}" || Ascii.eqb c "(" || Ascii.eqb c ")"
        || Ascii.eqb c "!" || Ascii.eqb c "#" || Ascii.eqb c "\"
        || Ascii.eqb c "|" || Ascii.eqb c "+" || Ascii.eqb c "@").

Fixpoint allPlain (s : string) : bool :=
  match s with
  | EmptyString => true
  | String c s' => isPlain c && allPlain s'
  end.

Definition inFragment (pattern : string) : bool :=
  negb (JsString.isEmpty pattern) && allPlain pattern.

(** [minimatch(path, pattern, { dot: true })] *)
Definition minimatch (path pattern : string) : bool :=
  if JsString.isEmpty pattern then JsString.isEmpty path
  else matchOne (map parse (slashSplit pattern)) (slashSplit path).

End Minimatch.

(* ===================================================================== *)
(** * The file system                                                     *)
(* ===================================================================== *)

(** What [fs/promises] operates on, as explicit state: a finite map from
    canonical absolute paths to nodes, the working directory and the home
    directory of the process, and the trace of the mutating calls made so
    far, and the mutating calls the kernel refuses.  The root directory
    always exists.  Time stamps and permission bits are not part of the
    state: [utimes] and [chmod] leave only their trace entry, and what
    permissions, a read-only file system or a full device forbid is given
    by [refuses], call by call. *)
Module Fs.

Inductive node : Type :=
| File (content : string)
| Dir
| Symlink (target : string).

Inductive errno : Type :=
| ENOENT | ENOTDIR | EISDIR | ELOOP | EEXIST | ENOTEMPTY | EINVAL
| EACCES | EPERM | EROFS | ENOSPC.

Inductive event : Type :=
| WriteFile (path content : string)
| CopyFile (src dest : string)
| Rename (src dest : string)
| Mkdir (path : string)
| Utimes (path : string)
| Chmod (path : string).

(** [refuses] tells which mutating calls the kernel turns down although
    their paths resolve, and with which error: a file or a directory
    without the permission the call needs ([EACCES], [EPERM]), a read-only
    file system ([EROFS]), a full device ([ENOSPC]). *)
Record World : Type := mkWorld {
  nodes : gmap string node;
  cwd : string;
  homedir : string;
  trace : list event;
  refuses : event -> option errno
}.

Record Dirent : Type := mkDirent {
  name : string;
  isDirectory : bool
}.

Record Stats : Type := mkStats {
  statIsDirectory : bool;
  statIsFile : bool;
  size : nat
}.

Definition lookupNode (m : gmap string node) (p : string) : option node :=
  if String.eqb p "/" then Some Dir else m !! p.

Definition child (dir seg : string) : string :=
  if String.eqb dir "/" then "/" +:+ seg else dir +:+ "/" +:+ seg.

(** The kernel follows at most this many symbolic links in one lookup. *)
Definition MAXSYMLINKS : nat := 40.

(** Path lookup from directory [cur] along [segs].  [followLast] says
    whether a symbolic link in the last position is followed (as [stat]
    does) or returned (as [lstat] does); [allowMissingLast] accepts a last
    component that does not exist yet (as a creating call does).  [follow]
    continues the lookup through the target of a symbolic link. *)
Fixpoint walkFrom (follow : string -> list string -> errno + string)
    (m : gmap string node) (followLast allowMissingLast : bool)
    (cur : string) (segs : list string) {struct segs} : errno + string :=
  match segs with
  | [] => inr cur
  | seg :: rest =>
      if String.eqb seg EmptyString || String.eqb seg "." then
        walkFrom follow m followLast allowMissingLast cur rest
      else if String.eqb seg ".." then
        walkFrom follow m followLast allowMissingLast
          (NodePath.dirname cur) rest
      else
        let p := child cur seg in
        let isLast := match rest with [] => true | _ => false end in
        match m !! p with
        | None => if isLast && allowMissingLast then inr p else inl ENOENT
        | Some Dir => walkFrom follow m followLast allowMissingLast p rest
        | Some (File _) => if isLast then inr p else inl ENOTDIR
        | Some (Symlink target) =>
            if isLast && negb followLast then inr p
            else
              follow (if NodePath.isAbsolute target then "/" else cur)
                     (JsString.split NodePath.sep target ++ rest)%list
        end
  end.

(** Lookup with a budget of symbolic links: when it is spent the lookup
    fails with [ELOOP]. *)
Fixpoint walk (budget : nat) (m : gmap string node)
    (followLast allowMissingLast : bool)
    : string -> list string -> errno + string :=
  walkFrom
    match budget with
    | O => fun _ _ => inl ELOOP
    | S budget' => walk budget' m followLast allowMissingLast
    end
    m followLast allowMissingLast.

Definition lookupPath (w : World) (followLast allowMissingLast : bool)
    (p : string) : errno + string :=
  walk MAXSYMLINKS (nodes w) followLast allowMissingLast
    (if NodePath.isAbsolute p then "/" else cwd w)
    (JsString.split NodePath.sep p).

(** [fs.realpath(p)] *)
Definition realpath (w : World) (p : string) : errno + string :=
  if JsString.isEmpty p then inl ENOENT else lookupPath w true false p.

(** [fs.stat(p)] *)
Definition stat (w : World) (p : string) : errno + Stats :=
  match realpath w p with
  | inl e => inl e
  | inr r =>
      match lookupNode (nodes w) r with
      | Some (File c) => inr (mkStats false true (String.length c))
      | Some Dir => inr (mkStats true false 0)
      | _ => inl ENOENT
      end
  end.

(** [fs.access(p)] *)
Definition access (w : World) (p : string) : errno + unit :=
  match realpath w p with
  | inl e => inl e
  | inr _ => inr tt
  end.

(** [fs.readFile(p, 'utf-8')] *)
Definition readFile (w : World) (p : string) : errno + string :=
  match realpath w p with
  | inl e => inl e
  | inr r =>
      match lookupNode (nodes w) r with
      | Some (File c) => inr c
      | Some Dir => inl EISDIR
      | _ => inl ENOENT
      end
  end.

Definition record (ev : event) (m : gmap string node) (w : World) : World :=
  mkWorld m (cwd w) (homedir w) (trace w ++ [ev]) (refuses w).

(** A mutating call whose paths have resolved: it fails when the kernel
    refuses it, and otherwise leaves the nodes [m] and its entry in the
    trace. *)
Definition perform (ev : event) (m : gmap string node) (w : World)
    : errno + World :=
  match refuses w ev with
  | Some e => inl e
  | None => inr (record ev m w)
  end.

(** Where a call that may create its target puts it. *)
Definition creationTarget (w : World) (p : string) : errno + string :=
  if JsString.isEmpty p then inl ENOENT
  else
    match lookupPath w true true p with
    | inl e => inl e
    | inr r =>
        match lookupNode (nodes w) r with
        | Some Dir => inl EISDIR
        | _ => inr r
        end
    end.

(** [fs.writeFile(p, content, 'utf-8')]: creates the file or replaces its
    content, unless the kernel refuses: that a file can be read does not
    make it writable. *)
Definition writeFile (w : World) (p content : string) : errno + World :=
  match creationTarget w p with
  | inl e => inl e
  | inr r =>
      perform (WriteFile p content) (<[r := File content]> (nodes w)) w
  end.

(** [fs.copyFile(src, dest)]: without a mode flag an existing destination
    is overwritten, unless the kernel refuses. *)
Definition copyFile (w : World) (src dest : string) : errno + World :=
  match readFile w src with
  | inl e => inl e
  | inr c =>
      match creationTarget w dest with
      | inl e => inl e
      | inr r => perform (CopyFile src dest) (<[r := File c]> (nodes w)) w
      end
  end.

Definition isUnder (dir p : string) : bool :=
  String.eqb p dir || JsString.startsWith p (dir +:+ "/").

Definition hasChildren (m : gmap string node) (dir : string) : bool :=
  existsb (fun kv => JsString.startsWith (fst kv) (dir +:+ "/"))
          (map_to_list m).

Definition rekey (src dest : string) (kv : string * node) : string * node :=
  (dest +:+ JsString.drop (String.length src) (fst kv), snd kv).

(** The map after moving the subtree at [src] to [dest]. *)
Definition moveSubtree (m : gmap string node) (src dest : string)
    : gmap string node :=
  let moved := List.filter (fun kv => isUnder src (fst kv)) (map_to_list m) in
  let kept := List.filter (fun kv => negb (isUnder src (fst kv))
                                && negb (isUnder dest (fst kv)))
                     (map_to_list m) in
  list_to_map (map (rekey src dest) moved ++ kept).

(** [fs.rename(src, dest)], as [rename(2)]: an existing destination file,
    or empty directory, is replaced. *)
Definition rename (w : World) (src dest : string) : errno + World :=
  match lookupPath w false false src, lookupPath w false true dest with
  | inl e, _ => inl e
  | _, inl e => inl e
  | inr s, inr d =>
      if String.eqb s d then perform (Rename src dest) (nodes w) w
      else
        match nodes w !! s, nodes w !! d with
        | None, _ => inl EINVAL
        | Some Dir, Some Dir =>
            if hasChildren (nodes w) d then inl ENOTEMPTY
            else if isUnder s d then inl EINVAL
            else perform (Rename src dest) (moveSubtree (nodes w) s d) w
        | Some Dir, Some _ => inl ENOTDIR
        | Some Dir, None =>
            if isUnder s d then inl EINVAL
            else perform (Rename src dest) (moveSubtree (nodes w) s d) w
        | Some _, Some Dir => inl EISDIR
        | Some _, _ =>
            perform (Rename src dest) (moveSubtree (nodes w) s d) w
        end
  end.

(** The loop of [mkdir -p]: every missing component is created. *)
Fixpoint mkdirSegments (budget : nat) (cur : string) (segs : list string)
    (m : gmap string node) : errno + gmap string node :=
  match segs with
  | [] => inr m
  | seg :: rest =>
      if String.eqb seg EmptyString || String.eqb seg "." then
        mkdirSegments budget cur rest m
      else if String.eqb seg ".." then
        mkdirSegments budget (NodePath.dirname cur) rest m
      else
        let p := child cur seg in
        match m !! p with
        | None => mkdirSegments budget p rest (<[p := Dir]> m)
        | Some Dir => mkdirSegments budget p rest m
        | Some (File _) => inl (match rest with [] => EEXIST | _ => ENOTDIR end)
        | Some (Symlink _) =>
            match walk budget m true false "/"
                    (JsString.split NodePath.sep p) with
            | inl e => inl e
            | inr r =>
                match lookupNode m r with
                | Some Dir => mkdirSegments budget r rest m
                | _ => inl (match rest with [] => EEXIST | _ => ENOTDIR end)
                end
            end
        end
  end.

(** [fs.mkdir(p, { recursive: true })] *)
Definition mkdir (w : World) (p : string) : errno + World :=
  if JsString.isEmpty p then inl ENOENT
  else
    match mkdirSegments MAXSYMLINKS
            (if NodePath.isAbsolute p then "/" else cwd w)
            (JsString.split NodePath.sep p) (nodes w) with
    | inl e => inl e
    | inr m => perform (Mkdir p) m w
    end.

Definition basename (p : string) : string :=
  match last (JsString.split NodePath.sep p) with
  | Some n => n
  | None => EmptyString
  end.

Definition direntOf (kv : string * node) : Dirent :=
  mkDirent (basename (fst kv))
           (match snd kv with Dir => true | _ => false end).

(** [fs.readdir(p, { withFileTypes: true })]: the entries of the directory,
    in the order the map enumerates them.  A symbolic link is an entry of
    its own kind, never a directory. *)
Definition readdir (w : World) (p : string) : errno + list Dirent :=
  match realpath w p with
  | inl e => inl e
  | inr r =>
      match lookupNode (nodes w) r with
      | Some Dir =>
          inr (map direntOf
                 (List.filter
                    (fun kv => String.eqb (NodePath.dirname (fst kv)) r
                               && negb (String.eqb (fst kv) "/"))
                    (map_to_list (nodes w))))
      | Some _ => inl ENOTDIR
      | None => inl ENOENT
      end
  end.

(** [fs.utimes(p, atime, mtime)] *)
Definition utimes (w : World) (p : string) : errno + World :=
  match realpath w p with
  | inl e => inl e
  | inr _ => perform (Utimes p) (nodes w) w
  end.

(** [fs.chmod(p, mode)] *)
Definition chmod (w : World) (p : string) : errno + World :=
  match realpath w p with
  | inl e => inl e
  | inr _ => perform (Chmod p) (nodes w) w
  end.

End Fs.

(* ===================================================================== *)
(** * The program                                                         *)
(* ===================================================================== *)

Module Server.

(** Every [throw new Error(...)] of the program, by the place that throws,
    and the rejections of the file-system calls. *)
Inductive error : Type :=
| AccessDeniedOutside (absolute : string)
| AccessDeniedSymlinkTarget
| AccessDeniedParent
| ParentMissing (parentDir : string)
| EditNotFound (oldText : string)
| SourceNotAccessible (source : string)
| DestinationExists (destination : string)
| SourceIsDirectory (source : string)
| SourceNotDirectory (source : string)
| SourceDirectoryNotAccessible (source : string)
| SystemError (e : Fs.errno).

(** The kinds of the specification's taxonomy the claims speak of. *)
Definition isAccessDenied (e : error) : bool :=
  match e with
  | AccessDeniedOutside _ => true
  | AccessDeniedSymlinkTarget => true
  | AccessDeniedParent => true
  | _ => false
  end.

Definition isParentMissing (e : error) : bool :=
  match e with ParentMissing _ => true | _ => false end.

Definition isAlreadyExists (e : error) : bool :=
  match e with DestinationExists _ => true | _ => false end.

(** ** Computations: state and exceptions *)

(** An [async] function either returns, throws, or has not finished when
    the recursion budget of the model ran out. *)
Inductive outcome (A : Type) : Type :=
| Return (a : A)
| Throw (e : error)
| OutOfFuel.

Arguments Return {A} a.
Arguments Throw {A} e.
Arguments OutOfFuel {A}.

Definition M (A : Type) : Type := Fs.World -> outcome A * Fs.World.

Definition ret {A : Type} (a : A) : M A := fun w => (Return a, w).

Definition throw {A : Type} (e : error) : M A := fun w => (Throw e, w).

Definition outOfFuel {A : Type} : M A := fun w => (OutOfFuel, w).

Definition bind {A B : Type} (m : M A) (k : A -> M B) : M B :=
  fun w =>
    match m w with
    | (Return a, w') => k a w'
    | (Throw e, w') => (Throw e, w')
    | (OutOfFuel, w') => (OutOfFuel, w')
    end.

(** [try { m } catch (error) { handler }]: every exception thrown inside
    the block reaches the handler, whoever threw it. *)
Definition tryCatch {A : Type} (m : M A) (handler : error -> M A) : M A :=
  fun w =>
    match m w with
    | (Throw e, w') => handler e w'
    | r => r
    end.

Notation "'let!' x ':=' m 'in' k" := (bind m (fun x => k))
  (at level 10, x name, m at level 100, k at level 200, only parsing).

(** A file-system call that only reads. *)
Definition query {A : Type} (f : Fs.World -> Fs.errno + A) : M A :=
  fun w =>
    match f w with
    | inl e => (Throw (SystemError e), w)
    | inr a => (Return a, w)
    end.

(** A file-system call that changes the world. *)
Definition command (f : Fs.World -> Fs.errno + Fs.World) : M unit :=
  fun w =>
    match f w with
    | inl e => (Throw (SystemError e), w)
    | inr w' => (Return tt, w')
    end.

Fixpoint forEach {A : Type} (l : list A) (body : A -> M unit) : M unit :=
  match l with
  | [] => ret tt
  | x :: rest => let! _ := body x in forEach rest body
  end.

Definition homedir : M string := fun w => (Return (Fs.homedir w), w).
Definition cwd : M string := fun w => (Return (Fs.cwd w), w).

(** ** Security functions *)

Definition normalizePath (p : string) : string := NodePath.normalize p.

Definition expandHomeIn (home filepath : string) : string :=
  if JsString.startsWith filepath "~/" || String.eqb filepath "~" then
    NodePath.join [home; JsString.drop 1 filepath]
  else filepath.

Definition expandHome (filepath : string) : M string :=
  let! home := homedir in ret (expandHomeIn home filepath).

(** [const allowedDirectories = args.map(...)], computed once when the
    module is loaded. *)
Definition allowedDirectoriesOf (w : Fs.World) (args : list string)
    : list string :=
  map (fun dir =>
         normalizePath
           (NodePath.resolve (Fs.cwd w) [expandHomeIn (Fs.homedir w) dir]))
      args.

(** The arrow function of the section "validate that every directory exists
    and is accessible": [process.exit(1)] as soon as one argument is not a
    directory or cannot be examined.  [true] means that it ran to its end
    without exiting. *)
Definition validateDirectories (w : Fs.World) (args : list string) : bool :=
  forallb (fun dir =>
             match Fs.stat w (expandHomeIn (Fs.homedir w) dir) with
             | inr stats => Fs.statIsDirectory stats
             | inl _ => false
             end)
          args.

Inductive startup : Type :=
| Exit (code : nat)
| Serving (allowed : list string).

(** The top level of the module, in order: the argument check, the constant
    [allowedDirectories], the arrow function above (an expression statement:
    the function is built, never called), the server object and its
    handlers, and [runServer()]. *)
Definition main (w : Fs.World) (args : list string) : startup :=
  if Nat.eqb (length args) 0 then Exit 1
  else
    let allowedDirectories := allowedDirectoriesOf w args in
    let _ := fun w' : Fs.World => validateDirectories w' args in
    Serving allowedDirectories.

Record EditOperation : Type := mkEdit {
  oldText : string;
  newText : string
}.

Section Program.

(** The constant [allowedDirectories], and [createTwoFilesPatch] of the
    [diff] package, which the program only calls. *)
Variable allowedDirectories : list string.
Variable createTwoFilesPatch :
  string -> string -> string -> string -> string -> string -> string.

(** [allowedDirectories.some(dir => p.startsWith(dir))] *)
Definition isInAllowed (p : string) : bool :=
  existsb (fun dir => JsString.startsWith p dir) allowedDirectories.

Definition validatePath (requestedPath : string) : M string :=
  let! expandedPath := expandHome requestedPath in
  let! here := cwd in
  let absolute :=
    if NodePath.isAbsolute expandedPath
    then NodePath.resolve here [expandedPath]
    else NodePath.resolve here [here; expandedPath] in
  let normalizedRequested := normalizePath absolute in
  let isAllowed := isInAllowed normalizedRequested in
  if negb isAllowed then throw (AccessDeniedOutside absolute)
  else
    tryCatch
      (let! realPath := query (fun w => Fs.realpath w absolute) in
       let normalizedReal := normalizePath realPath in
       let isRealPathAllowed := isInAllowed normalizedReal in
       if negb isRealPathAllowed then throw AccessDeniedSymlinkTarget
       else ret realPath)
      (fun _ =>
         let parentDir := NodePath.dirname absolute in
         tryCatch
           (let! realParentPath := query (fun w => Fs.realpath w parentDir) in
            let normalizedParent := normalizePath realParentPath in
            let isParentAllowed := isInAllowed normalizedParent in
            if negb isParentAllowed then throw AccessDeniedParent
            else ret absolute)
           (fun _ => throw (ParentMissing parentDir))).

(** ** Search *)

(** [pattern.includes('*') ? pattern : `**/${pattern}/**`] *)
Definition globPattern (pattern : string) : string :=
  if JsString.includes pattern "*" then pattern
  else "**/" +:+ pattern +:+ "/**".

Definition shouldExclude (excludePatterns : list string)
    (relativePath : string) : bool :=
  existsb
    (fun pattern => Minimatch.minimatch relativePath (globPattern pattern))
    excludePatterns.

Definition nameMatches (name pattern : string) : bool :=
  JsString.includes (JsString.toLowerCase name) (JsString.toLowerCase pattern).

(** The inner [search] of [searchFiles].  [results] is the array the
    closure shares with its callers: what was pushed before an exception
    stays pushed.  The file system is only read. *)
Fixpoint search (fuel : nat) (w : Fs.World)
    (rootPath pattern : string) (excludePatterns : list string)
    (currentPath : string) (results : list string)
    : outcome unit * list string :=
  match fuel with
  | O => (OutOfFuel, results)
  | S fuel' =>
      match Fs.readdir w currentPath with
      | inl e => (Throw (SystemError e), results)
      | inr entries =>
          (fix loop (entries : list Fs.Dirent) (results : list string)
             : outcome unit * list string :=
             match entries with
             | [] => (Return tt, results)
             | entry :: rest =>
                 let fullPath := NodePath.join [currentPath; Fs.name entry] in
                 match fst (validatePath fullPath w) with
                 | OutOfFuel => (OutOfFuel, results)
                 | Throw _ => loop rest results
                 | Return _ =>
                     let relativePath :=
                       NodePath.relative (Fs.cwd w) rootPath fullPath in
                     if shouldExclude excludePatterns relativePath then
                       loop rest results
                     else
                       let results1 :=
                         if nameMatches (Fs.name entry) pattern
                         then (results ++ [fullPath])%list else results in
                       if Fs.isDirectory entry then
                         match search fuel' w rootPath pattern excludePatterns
                                 fullPath results1 with
                         | (OutOfFuel, results2) => (OutOfFuel, results2)
                         | (_, results2) => loop rest results2
                         end
                       else loop rest results1
                 end
             end) entries results
      end
  end.

Definition searchFiles (fuel : nat) (rootPath pattern : string)
    (excludePatterns : list string) : M (list string) :=
  fun w =>
    match search fuel w rootPath pattern excludePatterns rootPath [] with
    | (Return _, results) => (Return results, w)
    | (Throw e, _) => (Throw e, w)
    | (OutOfFuel, _) => (OutOfFuel, w)
    end.

(** ** Editing *)

Definition LF : ascii := "010"%char.
Definition CR : ascii := "013"%char.
Definition newline : string := String LF EmptyString.
Definition CRLF : string := String CR newline.

(** [text.replace(/\r\n/g, '\n')] *)
Fixpoint normalizeLineEndings (text : string) : string :=
  match text with
  | EmptyString => EmptyString
  | String c rest =>
      match rest with
      | String d rest' =>
          if Ascii.eqb c CR && Ascii.eqb d LF
          then String LF (normalizeLineEndings rest')
          else String c (normalizeLineEndings rest)
      | EmptyString => String c EmptyString
      end
  end.

Definition createUnifiedDiff (originalContent newContent filepath : string)
    : string :=
  let normalizedOriginal := normalizeLineEndings originalContent in
  let normalizedNew := normalizeLineEndings newContent in
  createTwoFilesPatch filepath filepath normalizedOriginal normalizedNew
    "original" "modified".

(** [oldLines.every((oldLine, j) => ...)], the callback comparing
    [oldLine.trim()] with [potentialMatch[j].trim()]; inside the loop bounds
    [potentialMatch] is as long as [oldLines]. *)
Fixpoint isMatch (oldLines potentialMatch : list string) : bool :=
  match oldLines, potentialMatch with
  | [], _ => true
  | oldLine :: oldLines', contentLine :: potentialMatch' =>
      String.eqb (JsString.trim oldLine) (JsString.trim contentLine)
      && isMatch oldLines' potentialMatch'
  | _ :: _, [] => false
  end.

(** [l.slice(i, i + n)] *)
Definition slice {A : Type} (i n : nat) (l : list A) : list A :=
  firstn n (skipn i l).

(** The [for (let i = 0; i <= contentLines.length - oldLines.length; i++)]
    loop up to its [break]: [remaining] counts the iterations left. *)
Fixpoint findWindow (oldLines contentLines : list string) (i remaining : nat)
    : option nat :=
  match remaining with
  | O => None
  | S remaining' =>
      if isMatch oldLines (slice i (length oldLines) contentLines)
      then Some i
      else findWindow oldLines contentLines (S i) remaining'
  end.

(** The callback of [normalizedNew.split('\n').map((line, j) => ...)]. *)
Definition reindent (originalIndent : string) (oldLines : list string)
    (j : nat) (line : string) : string :=
  if Nat.eqb j 0 then originalIndent +:+ JsString.trimStart line
  else
    let oldIndent :=
      match nth_error oldLines j with
      | Some oldLine => JsString.leadingWhiteSpace oldLine
      | None => EmptyString
      end in
    let newIndent := JsString.leadingWhiteSpace line in
    if negb (JsString.isEmpty oldIndent) && negb (JsString.isEmpty newIndent)
    then
      let relativeIndent :=
        (Z.of_nat (String.length newIndent)
         - Z.of_nat (String.length oldIndent))%Z in
      originalIndent
      +:+ JsString.repeat " " (Z.to_nat (Z.max 0 relativeIndent))
      +:+ JsString.trimStart line
    else line.

Fixpoint mapi {A B : Type} (f : nat -> A -> B) (j : nat) (l : list A)
    : list B :=
  match l with
  | [] => []
  | x :: l' => f j x :: mapi f (S j) l'
  end.

(** [contentLines.splice(i, n, ...newLines)] *)
Definition splice {A : Type} (i n : nat) (newLines l : list A) : list A :=
  (firstn i l ++ newLines ++ skipn (i + n) l)%list.

(** The whitespace-tolerant strategy: the second half of the loop body. *)
Definition lineMatchReplace
    (modifiedContent normalizedOld normalizedNew : string) : option string :=
  let oldLines := JsString.split LF normalizedOld in
  let contentLines := JsString.split LF modifiedContent in
  match findWindow oldLines contentLines 0
          (S (length contentLines) - length oldLines) with
  | None => None
  | Some i =>
      let originalIndent :=
        JsString.leadingWhiteSpace (nth i contentLines EmptyString) in
      let newLines :=
        mapi (reindent originalIndent oldLines) 0
             (JsString.split LF normalizedNew) in
      Some (JsString.join newline
              (splice i (length oldLines) newLines contentLines))
  end.

(** One iteration of [for (const edit of edits)]: the new buffer, or the
    exception. *)
Definition applyEdit (modifiedContent : string) (edit : EditOperation)
    : error + string :=
  let normalizedOld := normalizeLineEndings (oldText edit) in
  let normalizedNew := normalizeLineEndings (newText edit) in
  if JsString.includes modifiedContent normalizedOld then
    inr (JsString.replace modifiedContent normalizedOld normalizedNew)
  else
    match lineMatchReplace modifiedContent normalizedOld normalizedNew with
    | Some modified => inr modified
    | None => inl (EditNotFound (oldText edit))
    end.

Fixpoint applyEdits (modifiedContent : string) (edits : list EditOperation)
    : error + string :=
  match edits with
  | [] => inr modifiedContent
  | edit :: rest =>
      match applyEdit modifiedContent edit with
      | inl e => inl e
      | inr modified => applyEdits modified rest
      end
  end.

(** [while (diff.includes('`'.repeat(numBackticks))) numBackticks++]; a run
    of back-ticks found in [diff] is no longer than [diff], which bounds the
    iterations. *)
Fixpoint growFence (iterations numBackticks : nat) (diff : string) : nat :=
  match iterations with
  | O => numBackticks
  | S iterations' =>
      if JsString.includes diff (JsString.repeat "`" numBackticks)
      then growFence iterations' (S numBackticks) diff
      else numBackticks
  end.

Definition formatDiff (diff : string) : string :=
  let numBackticks := growFence (String.length diff) 3 diff in
  JsString.repeat "`" numBackticks +:+ "diff" +:+ newline +:+ diff
  +:+ JsString.repeat "`" numBackticks +:+ newline +:+ newline.

Definition applyFileEdits (filePath : string) (edits : list EditOperation)
    (dryRun : bool) : M string :=
  let! raw := query (fun w => Fs.readFile w filePath) in
  let content := normalizeLineEndings raw in
  match applyEdits content edits with
  | inl e => throw e
  | inr modifiedContent =>
      let diff := createUnifiedDiff content modifiedContent filePath in
      let formattedDiff := formatDiff diff in
      let! _ := (if negb dryRun
                 then command (fun w => Fs.writeFile w filePath modifiedContent)
                 else ret tt) in
      ret formattedDiff
  end.

(** ** Recursive copy *)

(** [try { m } catch (error) { console.error(...) }] *)
Definition warn (m : M unit) : M unit := tryCatch m (fun _ => ret tt).

Fixpoint copyDir (fuel : nat) (src dest : string) (recursive : bool)
    : M unit :=
  match fuel with
  | O => outOfFuel
  | S fuel' =>
      let! _ := command (fun w => Fs.mkdir w dest) in
      let! entries := query (fun w => Fs.readdir w src) in
      let! _ :=
        forEach entries (fun entry =>
          let srcPath := NodePath.join [src; Fs.name entry] in
          let destPath := NodePath.join [dest; Fs.name entry] in
          if Fs.isDirectory entry then
            if recursive then copyDir fuel' srcPath destPath recursive
            else ret tt
          else
            let! _ := command (fun w => Fs.copyFile w srcPath destPath) in
            let! stats := query (fun w => Fs.stat w srcPath) in
            let! _ := command (fun w => Fs.utimes w destPath) in
            warn (command (fun w => Fs.chmod w destPath))) in
      let! stats := query (fun w => Fs.stat w src) in
      let! _ := command (fun w => Fs.utimes w dest) in
      warn (command (fun w => Fs.chmod w dest))
  end.

(** ** Request handlers: the cases of the [switch] *)

Definition edit_file (path : string) (edits : list EditOperation)
    (dryRun : bool) : M string :=
  let! validPath := validatePath path in
  applyFileEdits validPath edits dryRun.

Definition move_file (source destination : string) : M string :=
  let! validSourcePath := validatePath source in
  let! validDestPath := validatePath destination in
  let! _ := command (fun w => Fs.rename w validSourcePath validDestPath) in
  ret ("Archivo movido exitosamente de " +:+ source +:+ " a " +:+ destination).

Definition search_files (fuel : nat) (path pattern : string)
    (excludePatterns : list string) : M string :=
  let! validPath := validatePath path in
  let! results := searchFiles fuel validPath pattern excludePatterns in
  ret (match results with
       | [] => "No se encontraron coincidencias"
       | _ => JsString.join newline results
       end).

Definition copy_file (source destination : string) : M string :=
  let! validSourcePath := validatePath source in
  let! validDestPath := validatePath destination in
  let! _ := tryCatch (query (fun w => Fs.access w validSourcePath))
                     (fun _ => throw (SourceNotAccessible source)) in
  let! _ := tryCatch
              (let! _ := query (fun w => Fs.access w validDestPath) in
               throw (DestinationExists destination))
              (fun _ => ret tt) in
  let! stats := query (fun w => Fs.stat w validSourcePath) in
  if Fs.statIsDirectory stats then throw (SourceIsDirectory source)
  else
    let! _ := command (fun w => Fs.copyFile w validSourcePath validDestPath) in
    let! _ := command (fun w => Fs.utimes w validDestPath) in
    let! _ := warn (command (fun w => Fs.chmod w validDestPath)) in
    ret ("Archivo copiado exitosamente de " +:+ source +:+ " a "
         +:+ destination).

Definition copy_directory (fuel : nat) (source destination : string)
    (recursive : bool) : M string :=
  let! validSourcePath := validatePath source in
  let! validDestPath := validatePath destination in
  let! _ := tryCatch
              (let! stats := query (fun w => Fs.stat w validSourcePath) in
               if negb (Fs.statIsDirectory stats)
               then throw (SourceNotDirectory source)
               else ret tt)
              (fun _ => throw (SourceDirectoryNotAccessible source)) in
  let! _ := tryCatch
              (let! _ := query (fun w => Fs.access w validDestPath) in
               throw (DestinationExists destination))
              (fun _ => ret tt) in
  let! _ := copyDir fuel validSourcePath validDestPath recursive in
  ret ("Directorio copiado exitosamente de " +:+ source +:+ " a "
       +:+ destination).

(** The reply of the request handler: the [catch] at its end turns every
    exception into a reply with [isError]. *)
Record reply : Type := mkReply {
  text : outcome string;
  isError : bool
}.

Definition callTool (handler : M string) (w : Fs.World) : reply * Fs.World :=
  match handler w with
  | (Return t, w') => (mkReply (Return t) false, w')
  | (Throw e, w') => (mkReply (Throw e) true, w')
  | (OutOfFuel, w') => (mkReply OutOfFuel false, w')
  end.

(** ** The other handlers *)

(** The text of an exception, [error.message]. *)
Variable errorMessage : error -> string.

Definition read_file (path : string) : M string :=
  let! validPath := validatePath path in
  query (fun w => Fs.readFile w validPath).

(** The callback of [parsed.data.paths.map(async (filePath) => ...)]: its
    [catch] turns every exception into the text of the item. *)
Definition readOne (filePath : string) : M string :=
  tryCatch
    (let! validPath := validatePath filePath in
     let! content := query (fun w => Fs.readFile w validPath) in
     ret (filePath +:+ ":" +:+ newline +:+ content +:+ newline))
    (fun error => ret (filePath +:+ ": Error - " +:+ errorMessage error)).

(** [Promise.all(paths.map(...))]: the results in the order of the
    paths. *)
Fixpoint promiseAll {A B : Type} (f : A -> M B) (l : list A) : M (list B) :=
  match l with
  | [] => ret []
  | x :: rest =>
      let! y := f x in
      let! ys := promiseAll f rest in
      ret (y :: ys)
  end.

Definition itemSeparator : string := newline +:+ "---" +:+ newline.

Definition read_multiple_files (paths : list string) : M string :=
  let! results := promiseAll readOne paths in
  ret (JsString.join itemSeparator results).

Definition write_file (path content : string) : M string :=
  let! validPath := validatePath path in
  let! _ := command (fun w => Fs.writeFile w validPath content) in
  ret ("Archivo escrito exitosamente en " +:+ path).

Definition create_directory (path : string) : M string :=
  let! validPath := validatePath path in
  let! _ := command (fun w => Fs.mkdir w validPath) in
  ret ("Directorio creado exitosamente en " +:+ path).

Definition formatEntry (entry : Fs.Dirent) : string :=
  (if Fs.isDirectory entry then "[DIR]" else "[FILE]")
  +:+ " " +:+ Fs.name entry.

Definition list_directory (path : string) : M string :=
  let! validPath := validatePath path in
  let! entries := query (fun w => Fs.readdir w validPath) in
  ret (JsString.join newline (map formatEntry entries)).

Inductive entryType : Type :=
| file
| directory.

(** [interface TreeEntry]: [children] is an optional field. *)
#[warnings="-register-all"] Inductive TreeEntry : Type :=
| mkTreeEntry (name : string) (type : entryType)
              (children : option (list TreeEntry)).

(** [buildTree] of the [directory_tree] handler: every directory on the way
    down is validated and read; an exception anywhere ends the whole
    call. *)
Fixpoint buildTree (fuel : nat) (currentPath : string)
    : M (list TreeEntry) :=
  match fuel with
  | O => outOfFuel
  | S fuel' =>
      let! validPath := validatePath currentPath in
      let! entries := query (fun w => Fs.readdir w validPath) in
      (fix loop (entries : list Fs.Dirent) (result : list TreeEntry)
         : M (list TreeEntry) :=
         match entries with
         | [] => ret result
         | entry :: rest =>
             if Fs.isDirectory entry then
               let subPath := NodePath.join [currentPath; Fs.name entry] in
               let! children := buildTree fuel' subPath in
               loop rest
                 (result ++ [mkTreeEntry (Fs.name entry) directory
                               (Some children)])%list
             else
               loop rest
                 (result ++ [mkTreeEntry (Fs.name entry) file None])%list
         end) entries []
  end.

Definition list_allowed_directories : string :=
  "Directorios permitidos:" +:+ newline
  +:+ JsString.join newline allowedDirectories.

End Program.

End Server.

(* ===================================================================== *)
(** * The specification's notions                                         *)
(* ===================================================================== *)

(** The definitions of this part follow the words of the specification;
    the theorems compare them with the program. *)
Module Spec.

Import JsString.

(** "A window the length of the search block over buffer lines ... where
    every line equals its counterpart after trimming leading/trailing
    whitespace from both": the window starting at line [i]. *)
Definition windowMatches (searchLines bufferLines : list string) (i : nat)
    : Prop :=
  i + length searchLines <= length bufferLines
  /\ forall j searchLine,
       nth_error searchLines j = Some searchLine ->
       exists bufferLine,
         nth_error bufferLines (i + j) = Some bufferLine
         /\ trim searchLine = trim bufferLine.

(** "The lowest starting index" at which the window matches. *)
Definition lowestWindow (searchLines bufferLines : list string) (i : nat)
    : Prop :=
  windowMatches searchLines bufferLines i
  /\ forall i', i' < i -> ~ windowMatches searchLines bufferLines i'.

(** Line [j] of the replacement after re-indentation: line 0 gets the
    captured indentation before its stripped content; a later line gets the
    captured indentation plus the difference between its own leading white
    space and that of search line [j], floored at zero, when both have
    leading white space, and is used as it is otherwise. *)
Definition reindentedLine (indentation : string) (searchLine : option string)
    (j : nat) (line : string) : string :=
  match j with
  | O => indentation +:+ trimStart line
  | S _ =>
      match searchLine with
      | None => line
      | Some searchLine =>
          let a := String.length (leadingWhiteSpace searchLine) in
          let b := String.length (leadingWhiteSpace line) in
          if Nat.ltb 0 a && Nat.ltb 0 b
          then indentation +:+ JsString.repeat " " (b - a) +:+ trimStart line
          else line
      end
  end.

(** An edit that matches by neither strategy in [buffer]. *)
Definition matchesNeither (buffer : string) (edit : Server.EditOperation)
    : Prop :=
  let search := Server.normalizeLineEndings (Server.oldText edit) in
  includes buffer search = false
  /\ forall i, ~ windowMatches (split Server.LF search)
                               (split Server.LF buffer) i.

End Spec.

(* ===================================================================== *)
(** * Auxiliary predicates                                                *)
(* ===================================================================== *)

Module Aux.

(** A replacement text in which no character is [$]. *)
Fixpoint noDollar (s : string) : bool :=
  match s with
  | EmptyString => true
  | String c s' => negb (Ascii.eqb c "$") && noDollar s'
  end.

(** The absolute path [validatePath] derives from the requested one before
    any check. *)
Definition absoluteOf (w : Fs.World) (requestedPath : string) : string :=
  let expandedPath := Server.expandHomeIn (Fs.homedir w) requestedPath in
  if NodePath.isAbsolute expandedPath
  then NodePath.resolve (Fs.cwd w) [expandedPath]
  else NodePath.resolve (Fs.cwd w) [Fs.cwd w; expandedPath].

(** No character of [s] is the separator: [s] is at most one segment. *)
Fixpoint noSeparator (s : string) : bool :=
  match s with
  | EmptyString => true
  | String c s' => negb (Ascii.eqb c NodePath.sep) && noSeparator s'
  end.

(** A character other than the separator occurs in [s]. *)
Fixpoint hasName (s : string) : bool :=
  match s with
  | EmptyString => false
  | String c s' => negb (Ascii.eqb c NodePath.sep) || hasName s'
  end.

(** The character [c] does not occur in [s]. *)
Fixpoint lacks (c : ascii) (s : string) : bool :=
  match s with
  | EmptyString => true
  | String d s' => negb (Ascii.eqb d c) && lacks c s'
  end.

(** A computation that leaves the file system and its trace as they
    were. *)
Definition readOnly {A : Type} (m : Server.M A) : Prop :=
  forall w, snd (m w) = w.

(** A computation none of whose exceptions is of the kind [kind]. *)
Definition neverThrows {A : Type} (kind : Server.error -> bool)
    (m : Server.M A) : Prop :=
  forall w e w', m w = (Server.Throw e, w') -> kind e = false.

(** The exception that tells the source of a copy is not a directory. *)
Definition isSourceNotDirectory (e : Server.error) : bool :=
  match e with Server.SourceNotDirectory _ => true | _ => false end.

(** The text a handler returns in the world [w]; empty when it does not
    return. *)
Definition answer (handler : Server.M string) (w : Fs.World) : string :=
  match fst (handler w) with
  | Server.Return t => t
  | _ => EmptyString
  end.

Definition entryName (t : Server.TreeEntry) : string :=
  match t with Server.mkTreeEntry name _ _ => name end.

Definition entryIsDirectory (t : Server.TreeEntry) : bool :=
  match t with
  | Server.mkTreeEntry _ Server.directory _ => true
  | Server.mkTreeEntry _ Server.file _ => false
  end.

(** A tree entry has [children] exactly when it is a directory, and so
    have the entries below it. *)
Fixpoint wellFormed (t : Server.TreeEntry) : bool :=
  match t with
  | Server.mkTreeEntry _ Server.file None => true
  | Server.mkTreeEntry _ Server.directory (Some children) =>
      forallb wellFormed children
  | _ => false
  end.

(** A segment of a relative path as [path.relative] writes it: not empty,
    without separator, and neither [.] nor [..]. *)
Definition plainSegment (s : string) : bool :=
  negb (JsString.isEmpty s) && noSeparator s && negb (Minimatch.isDots s).

(** What the search checks of an entry of the directory [dir] before it
    looks at its name: the directory could be read and lists the entry, the
    entry's path passed validation, and no exclude pattern matches that path
    relative to the root. *)
Definition qualifies (allowedDirectories : list string) (w : Fs.World)
    (rootPath : string) (excludePatterns : list string)
    (dir : string) (entry : Fs.Dirent) : Prop :=
  (exists entries, Fs.readdir w dir = inr entries /\ In entry entries)
  /\ (exists validPath,
        fst (Server.validatePath allowedDirectories
               (NodePath.join [dir; Fs.name entry]) w)
        = Server.Return validPath)
  /\ Server.shouldExclude excludePatterns
       (NodePath.relative (Fs.cwd w) rootPath
          (NodePath.join [dir; Fs.name entry])) = false.

(** What the search has established of a path it returns: it is the path
    of an entry that qualifies and whose name contains the pattern. *)
Definition found (allowedDirectories : list string) (w : Fs.World)
    (rootPath pattern : string) (excludePatterns : list string)
    (fullPath : string) : Prop :=
  exists dir entry,
    fullPath = NodePath.join [dir; Fs.name entry]
    /\ qualifies allowedDirectories w rootPath excludePatterns dir entry
    /\ Server.nameMatches (Fs.name entry) pattern = true.

(** The directories the search goes through when it starts at [from]:
    [from] itself, and what it goes through from each entry of [from] that
    qualifies and is a directory. *)
Inductive visits (allowedDirectories : list string) (w : Fs.World)
    (rootPath : string) (excludePatterns : list string)
    : string -> string -> Prop :=
| visits_here (from : string) :
    visits allowedDirectories w rootPath excludePatterns from from
| visits_below (from : string) (entry : Fs.Dirent) (dir : string) :
    qualifies allowedDirectories w rootPath excludePatterns from entry ->
    Fs.isDirectory entry = true ->
    visits allowedDirectories w rootPath excludePatterns
      (NodePath.join [from; Fs.name entry]) dir ->
    visits allowedDirectories w rootPath excludePatterns from dir.

End Aux.

(* ===================================================================== *)
(** * Scenarios                                                           *)
(* ===================================================================== *)

(** Concrete worlds and inputs on which the theorems are exercised. *)
Module Scenario.

Import Server.

Definition lines (l : list string) : string := JsString.join newline l.

(** A stand-in for the patch renderer of the [diff] package. *)
Definition renderPatch (oldName newName oldText newText oldHeader newHeader
    : string) : string :=
  "--- " +:+ oldName +:+ " " +:+ oldHeader +:+ newline +:+ oldText
  +:+ "+++ " +:+ newName +:+ " " +:+ newHeader +:+ newline +:+ newText.

Definition allowed : list string := ["/sandbox"].

(** A kernel that refuses no call. *)
Definition permissive (ev : Fs.event) : option Fs.errno := None.


(** One allowed directory with two files, one of them with CR LF line
    endings. *)
Definition notes : gmap string Fs.node :=
  list_to_map
    [("/sandbox", Fs.Dir);
     ("/sandbox/a.txt", Fs.File (lines ["line1"; "line2"; EmptyString]));
     ("/sandbox/dos.txt",
      Fs.File ("one" +:+ String CR newline +:+ "two" +:+ String CR EmptyString))].

Definition notesWorld : Fs.World :=
  Fs.mkWorld notes "/" "/home/user" [] permissive.


(** A symbolic link inside the allowed directory that points out of it. *)
Definition escape : gmap string Fs.node :=
  list_to_map
    [("/sandbox", Fs.Dir);
     ("/sandbox/link", Fs.Symlink "/etc/passwd");
     ("/etc", Fs.Dir);
     ("/etc/passwd", Fs.File "root:x:0:0:")].

Definition escapeWorld : Fs.World :=
  Fs.mkWorld escape "/" "/home/user" [] permissive.

(** The allowed directory [/a/b] and its sibling [/a/bc]. *)
Definition siblings : gmap string Fs.node :=
  list_to_map
    [("/a", Fs.Dir);
     ("/a/b", Fs.Dir);
     ("/a/bc", Fs.Dir);
     ("/a/bc/secret.txt", Fs.File "secret")].

Definition siblingsWorld : Fs.World :=
  Fs.mkWorld siblings "/" "/home/user" [] permissive.

(** Sources and destinations that all exist. *)
Definition copies : gmap string Fs.node :=
  list_to_map
    [("/sandbox", Fs.Dir);
     ("/sandbox/a.txt", Fs.File "new");
     ("/sandbox/b.txt", Fs.File "old");
     ("/sandbox/src", Fs.Dir);
     ("/sandbox/src/f.txt", Fs.File "from src");
     ("/sandbox/dst", Fs.Dir);
     ("/sandbox/dst/f.txt", Fs.File "kept so far")].

Definition copiesWorld : Fs.World :=
  Fs.mkWorld copies "/" "/home/user" [] permissive.

(** A project with a [build] directory. *)
Definition project : gmap string Fs.node :=
  list_to_map
    [("/sandbox", Fs.Dir);
     ("/sandbox/build", Fs.Dir);
     ("/sandbox/build/out.js", Fs.File EmptyString)].

Definition projectWorld : Fs.World :=
  Fs.mkWorld project "/" "/home/user" [] permissive.

(** Log files at depth one and deeper. *)
Definition logs : gmap string Fs.node :=
  list_to_map
    [("/sandbox", Fs.Dir);
     ("/sandbox/app.log", Fs.File EmptyString);
     ("/sandbox/old", Fs.Dir);
     ("/sandbox/old/app.log", Fs.File EmptyString)].

Definition logsWorld : Fs.World :=
  Fs.mkWorld logs "/" "/home/user" [] permissive.

(** A stand-in for the text of an exception. *)
Definition describe (e : Server.error) : string :=
  match e with
  | AccessDeniedOutside absolute => "Acceso denegado: " +:+ absolute
  | AccessDeniedSymlinkTarget => "Acceso denegado - destino del enlace"
  | AccessDeniedParent => "Acceso denegado - directorio padre"
  | ParentMissing parentDir => "El directorio padre no existe: " +:+ parentDir
  | EditNotFound oldText => "No se pudo encontrar: " +:+ oldText
  | SourceNotAccessible source => "El origen no existe: " +:+ source
  | DestinationExists destination => "El destino ya existe: " +:+ destination
  | SourceIsDirectory source => "La fuente es un directorio: " +:+ source
  | SourceNotDirectory source => "La fuente no es un directorio: " +:+ source
  | SourceDirectoryNotAccessible source =>
      "El directorio de origen no existe: " +:+ source
  | SystemError _ => "ENOENT"
  end.

End Scenario.

(* ===================================================================== *)
(** * The library models on documented examples                           *)
(* ===================================================================== *)

(** The examples of the Node documentation for [path]. *)
Example normalize_doc :
  NodePath.normalize "/foo/bar//baz/asdf/quux/.." = "/foo/bar/baz/asdf".
Proof. reflexivity. Qed.

Example join_doc :
  NodePath.join ["/foo"; "bar"; "baz/asdf"; "quux"; ".."]
  = "/foo/bar/baz/asdf".
Proof. reflexivity. Qed.

Example resolve_doc :
  NodePath.resolve "/home/user" ["/foo/bar"; "./baz"] = "/foo/bar/baz"
  /\ NodePath.resolve "/home/user" ["/foo/bar"; "/tmp/file/"] = "/tmp/file"
  /\ NodePath.resolve "/home/myself/node"
       ["wwwroot"; "static_files/png/"; "../gif/image.gif"]
     = "/home/myself/node/wwwroot/static_files/gif/image.gif".
Proof. repeat split; reflexivity. Qed.

Example relative_doc :
  NodePath.relative "/" "/data/orandea/test/aaa" "/data/orandea/impl/bbb"
  = "../../impl/bbb".
Proof. reflexivity. Qed.

Example dirname_doc :
  NodePath.dirname "/foo/bar/baz/asdf/quux" = "/foo/bar/baz/asdf".
Proof. reflexivity. Qed.

(** [String.prototype.replace] with a string pattern: the first occurrence
    only, and the replacement patterns of the language. *)
Example replace_first_occurrence :
  JsString.replace "a-b-a" "a" "X" = "X-b-a".
Proof. reflexivity. Qed.

Example replace_patterns :
  JsString.replace "abc" "b" "[$&|$`|$'|$$|$1]" = "a[b|a|c|$|$1]c".
Proof. reflexivity. Qed.

Example split_keeps_empty_pieces :
  JsString.split "," ",a,,b," = [EmptyString; "a"; EmptyString; "b"; EmptyString].
Proof. reflexivity. Qed.

(** The examples of the [minimatch] documentation, and the two behaviours
    of [**] the search depends on. *)
Example minimatch_doc :
  Minimatch.minimatch "bar.foo" "*.foo" = true
  /\ Minimatch.minimatch "bar.foo" "*.bar" = false.
Proof. split; reflexivity. Qed.

Example globstar_spans_directories :
  Minimatch.minimatch "a/b/c/d.js" "a/**/*.js" = true
  /\ Minimatch.minimatch "a/d.js" "a/**/*.js" = true
  /\ Minimatch.minimatch "d.js" "**/*.js" = true.
Proof. repeat split; reflexivity. Qed.

Example trailing_globstar_needs_a_segment :
  Minimatch.minimatch "a/b" "a/**" = true
  /\ Minimatch.minimatch "a/" "a/**" = true
  /\ Minimatch.minimatch "a" "a/**" = false.
Proof. repeat split; reflexivity. Qed.

(** The scenario of the specification: editing [line2] into [LINE2]. *)
Example edit_scenario :
  Server.applyEdits (Scenario.lines ["line1"; "line2"; EmptyString])
    [Server.mkEdit "line2" "LINE2"]
  = inr (Scenario.lines ["line1"; "LINE2"; EmptyString]).
Proof. reflexivity. Qed.

(* ===================================================================== *)
(** * Facts about strings                                                 *)
(* ===================================================================== *)

Section StringFacts.

Import JsString.

Lemma length_append (a b : string) :
  String.length (a +:+ b) = String.length a + String.length b.
Proof. induction a as [|x a IH]; simpl; [reflexivity | now rewrite IH]. Qed.

Lemma take_drop (n : nat) (s : string) : take n s +:+ drop n s = s.
Proof.
  revert s; induction n as [|n IH]; intros [|c s]; simpl; try reflexivity.
  now rewrite IH.
Qed.

Lemma drop_append (a b : string) : drop (String.length a) (a +:+ b) = b.
Proof. induction a as [|x a IH]; simpl; [reflexivity | exact IH]. Qed.

Lemma startsWith_append (p t : string) : startsWith (p +:+ t) p = true.
Proof.
  induction p as [|c p IH]; simpl; [reflexivity|].
  now rewrite Ascii.eqb_refl, IH.
Qed.

Lemma startsWith_inv (s p : string) :
  startsWith s p = true -> s = p +:+ drop (String.length p) s.
Proof.
  revert s; induction p as [|c p IH]; intros s H; simpl in *; [reflexivity|].
  destruct s as [|d s]; [discriminate|].
  apply andb_true_iff in H as [Hc Hs].
  apply Ascii.eqb_eq in Hc; subst d.
  simpl. f_equal. now apply IH.
Qed.

Lemma startsWith_length (s p : string) :
  startsWith s p = true -> String.length p <= String.length s.
Proof.
  intros H; apply startsWith_inv in H; rewrite H, length_append; lia.
Qed.

(** [indexOf] finds the first position at which [sub] starts. *)
Lemma indexOf_Some (s sub : string) (i : nat) :
  indexOf s sub = Some i ->
  startsWith (drop i s) sub = true
  /\ i + String.length sub <= String.length s
  /\ forall j, j < i -> startsWith (drop j s) sub = false.
Proof.
  revert i; induction s as [|c s IH]; intros i H.
  - simpl in H. destruct (startsWith EmptyString sub) eqn:E; [|discriminate].
    injection H as <-. repeat split; [exact E | | intros j Hj; lia].
    apply startsWith_length in E. simpl in *; lia.
  - cbn [indexOf] in H.
    destruct (startsWith (String c s) sub) eqn:E.
    + injection H as <-. repeat split; [exact E | | intros j Hj; lia].
      apply startsWith_length in E. simpl in *; lia.
    + destruct (indexOf s sub) as [k|] eqn:Ek; [|discriminate].
      injection H as <-.
      destruct (IH k eq_refl) as (H1 & H2 & H3).
      repeat split; [exact H1 | simpl; lia |].
      intros [|j] Hj; [exact E | simpl; apply H3; lia].
Qed.

Lemma indexOf_None (s sub : string) (j : nat) :
  indexOf s sub = None -> startsWith (drop j s) sub = false.
Proof.
  revert j; induction s as [|c s IH]; intros j H.
  - simpl in H. destruct (startsWith EmptyString sub) eqn:E; [discriminate|].
    now destruct j.
  - cbn [indexOf] in H.
    destruct (startsWith (String c s) sub) eqn:E; [discriminate|].
    destruct (indexOf s sub) eqn:Ek; [discriminate|].
    destruct j as [|j]; [exact E | simpl; now apply IH].
Qed.

Lemma includes_occurrence (s sub : string) :
  includes s sub = true <-> exists a b, s = a +:+ sub +:+ b.
Proof.
  unfold includes; split.
  - destruct (indexOf s sub) as [i|] eqn:E; [|discriminate]. intros _.
    apply indexOf_Some in E as (H & _ & _).
    apply startsWith_inv in H.
    exists (take i s), (drop (String.length sub) (drop i s)).
    rewrite <- H. symmetry; apply take_drop.
  - intros (a & b & ->).
    destruct (indexOf (a +:+ sub +:+ b) sub) eqn:E; [reflexivity|].
    apply indexOf_None with (j := String.length a) in E.
    now rewrite drop_append, startsWith_append in E.
Qed.

Lemma includes_length (s sub : string) :
  includes s sub = true -> String.length sub <= String.length s.
Proof.
  intros H; apply includes_occurrence in H as (a & b & ->).
  rewrite !length_append; lia.
Qed.

Lemma length_repeat (c : ascii) (n : nat) :
  String.length (JsString.repeat (String c EmptyString) n) = n.
Proof. induction n as [|n IH]; simpl; [reflexivity | now rewrite IH]. Qed.

(** A template without [$] stands for itself. *)
Lemma getSubstitution_literal (template matched before after : string) :
  Aux.noDollar template = true ->
  getSubstitution template matched before after = template.
Proof.
  induction template as [|c t IH]; simpl; [reflexivity|].
  intros H; apply andb_true_iff in H as [Hc Ht].
  apply negb_true_iff, Ascii.eqb_neq in Hc.
  destruct c as [b0 b1 b2 b3 b4 b5 b6 b7].
  destruct b0, b1, b2, b3, b4, b5, b6, b7;
    try (now rewrite IH); now contradiction Hc.
Qed.

(** With a replacement free of [$], [replace] splices it in at the first
    occurrence and leaves the text before and after it as it was. *)
Lemma replace_literal (s pattern replacement : string) (i : nat) :
  indexOf s pattern = Some i ->
  Aux.noDollar replacement = true ->
  replace s pattern replacement
  = take i s +:+ replacement +:+ drop (i + String.length pattern) s.
Proof.
  intros Hi Hr. unfold replace. rewrite Hi.
  now rewrite getSubstitution_literal.
Qed.

End StringFacts.

(* ===================================================================== *)
(** * The edit engine                                                     *)
(* ===================================================================== *)

Section EditEngine.

Import JsString Server.

Variable createTwoFilesPatch :
  string -> string -> string -> string -> string -> string -> string.

(** ** The window search *)

Lemma nth_error_slice {A : Type} (l : list A) (i n j : nat) :
  j < n -> nth_error (slice i n l) j = nth_error l (i + j).
Proof.
  intros H. unfold slice.
  rewrite List.nth_error_firstn.
  destruct (Nat.ltb_spec j n); [apply List.nth_error_skipn | lia].
Qed.

Lemma length_slice {A : Type} (l : list A) (i n : nat) :
  i + n <= length l -> length (slice i n l) = n.
Proof.
  intros H. unfold slice.
  rewrite List.length_firstn, List.length_skipn. lia.
Qed.

Lemma isMatch_iff (oldLines potentialMatch : list string) :
  length oldLines <= length potentialMatch ->
  isMatch oldLines potentialMatch = true
  <-> forall j oldLine,
        nth_error oldLines j = Some oldLine ->
        exists contentLine,
          nth_error potentialMatch j = Some contentLine
          /\ trim oldLine = trim contentLine.
Proof.
  revert potentialMatch.
  induction oldLines as [|o ol IH]; intros [|c pm] Hlen; simpl in *; try lia.
  - split; [intros _ [|j] x H; discriminate | reflexivity].
  - split; [intros _ [|j] x H; discriminate | reflexivity].
  - rewrite andb_true_iff, String.eqb_eq, IH by lia. split.
    + intros [H0 H] [|j] x Hx; simpl in *.
      * injection Hx as <-. eauto.
      * now apply H.
    + intros H. split.
      * destruct (H 0 o eq_refl) as (x & Hx & E). now injection Hx as <-.
      * intros j x Hx. exact (H (S j) x Hx).
Qed.

Lemma windowMatches_isMatch (oldLines contentLines : list string) (i : nat) :
  Spec.windowMatches oldLines contentLines i
  <-> i + length oldLines <= length contentLines
      /\ isMatch oldLines (slice i (length oldLines) contentLines) = true.
Proof.
  unfold Spec.windowMatches. split; intros [Hlen H]; split; try exact Hlen.
  - apply isMatch_iff; [rewrite length_slice; lia|].
    intros j x Hx. rewrite nth_error_slice; [now apply H|].
    apply List.nth_error_Some. congruence.
  - assert (Hl : length oldLines
                 <= length (slice i (length oldLines) contentLines))
      by (rewrite length_slice; lia).
    pose proof (proj1 (isMatch_iff _ _ Hl) H) as H'.
    intros j x Hx. rewrite <- nth_error_slice with (n := length oldLines);
      [now apply H'|].
    apply List.nth_error_Some. congruence.
Qed.

Lemma findWindow_lowest (oldLines contentLines : list string)
    (start remaining i : nat) :
  start <= i < start + remaining ->
  isMatch oldLines (slice i (length oldLines) contentLines) = true ->
  (forall i', start <= i' < i ->
     isMatch oldLines (slice i' (length oldLines) contentLines) = false) ->
  findWindow oldLines contentLines start remaining = Some i.
Proof.
  revert start; induction remaining as [|n IH]; intros start Hi Hm Hlow;
    [lia|].
  simpl. destruct (Nat.eq_dec start i) as [->|Hne].
  - now rewrite Hm.
  - rewrite Hlow by lia. apply IH; [lia | exact Hm |].
    intros i' Hi'. apply Hlow. lia.
Qed.


Lemma findWindow_of_lowestWindow (oldLines contentLines : list string)
    (i : nat) :
  Spec.lowestWindow oldLines contentLines i ->
  findWindow oldLines contentLines 0
    (S (length contentLines) - length oldLines) = Some i.
Proof.
  intros [Hw Hlow]. pose proof Hw as Hw'.
  apply windowMatches_isMatch in Hw' as [Hlen Hm].
  apply findWindow_lowest; [lia | exact Hm |].
  intros i' Hi'.
  destruct (isMatch oldLines (slice i' (length oldLines) contentLines)) eqn:E;
    [|reflexivity].
  exfalso. apply (Hlow i'); [lia|].
  apply windowMatches_isMatch. split; [lia | exact E].
Qed.


(** ** Re-indentation *)

Lemma isEmpty_length (s : string) :
  negb (isEmpty s) = Nat.ltb 0 (String.length s).
Proof. now destruct s. Qed.

Lemma reindent_spec (originalIndent : string) (oldLines : list string)
    (j : nat) (line : string) :
  reindent originalIndent oldLines j line
  = Spec.reindentedLine originalIndent (nth_error oldLines j) j line.
Proof.
  unfold reindent, Spec.reindentedLine.
  destruct j as [|j]; [reflexivity|]. cbn [Nat.eqb].
  destruct (nth_error oldLines (S j)) as [oldLine|].
  - rewrite !isEmpty_length.
    destruct (_ && _); [|reflexivity].
    do 2 f_equal. f_equal. lia.
  - reflexivity.
Qed.

Lemma length_mapi {A B : Type} (f : nat -> A -> B) (k : nat) (l : list A) :
  length (mapi f k l) = length l.
Proof.
  revert k; induction l as [|x l IH]; intros k; simpl;
    [reflexivity | now rewrite IH].
Qed.

Lemma nth_error_mapi {A B : Type} (f : nat -> A -> B) (k j : nat)
    (l : list A) (x : A) :
  nth_error l j = Some x -> nth_error (mapi f k l) j = Some (f (k + j) x).
Proof.
  revert k j; induction l as [|y l IH]; intros k [|j] H; simpl in *;
    try discriminate.
  - injection H as ->. now rewrite Nat.add_0_r.
  - rewrite (IH (S k) j H). f_equal. f_equal. lia.
Qed.

(** ** Line endings *)

#[local] Arguments Ascii.eqb : simpl never.

Lemma normalize_crlf_head (rest : string) :
  normalizeLineEndings (String CR (String LF rest))
  = String LF (normalizeLineEndings rest).
Proof. reflexivity. Qed.

Lemma normalize_other_head (c : ascii) (rest : string) :
  startsWith (String c rest) CRLF = false ->
  normalizeLineEndings (String c rest)
  = String c (normalizeLineEndings rest).
Proof.
  destruct rest as [|d rest]; [reflexivity|]. cbn.
  destruct (Ascii.eqb_spec CR c) as [<-|Hc]; cbn.
  - destruct (Ascii.eqb_spec LF d) as [<-|Hd]; cbn; [discriminate|].
    intros _. destruct (Ascii.eqb_spec d LF); [congruence | reflexivity].
  - intros _. destruct (Ascii.eqb_spec c CR); [congruence | reflexivity].
Qed.

Lemma startsWith_crlf_inv (c : ascii) (s : string) :
  startsWith (String c s) CRLF = true ->
  exists rest, c = CR /\ s = String LF rest.
Proof.
  intros E. apply startsWith_inv in E. cbn in E. injection E as -> E.
  eauto.
Qed.

Lemma length_normalize (s : string) :
  String.length (normalizeLineEndings s) <= String.length s.
Proof.
  remember (String.length s) as n eqn:Hn. revert s Hn.
  induction n as [n IH] using lt_wf_ind. intros s ->.
  destruct s as [|c s]; [reflexivity|].
  destruct (startsWith (String c s) CRLF) eqn:E.
  - apply startsWith_crlf_inv in E as (rest & -> & ->).
    rewrite normalize_crlf_head. cbn.
    assert (String.length (normalizeLineEndings rest) <= String.length rest)
      by (apply (IH (String.length rest)); [cbn; lia | reflexivity]).
    lia.
  - rewrite normalize_other_head by exact E. cbn.
    assert (String.length (normalizeLineEndings s) <= String.length s)
      by (apply (IH (String.length s)); [cbn; lia | reflexivity]).
    lia.
Qed.

Lemma normalize_append (a b : string) :
  startsWith b newline = false ->
  normalizeLineEndings (a +:+ b)
  = normalizeLineEndings a +:+ normalizeLineEndings b.
Proof.
  intros Hb. remember (String.length a) as n eqn:Hn. revert a Hn.
  induction n as [n IH] using lt_wf_ind. intros a ->.
  destruct a as [|c a]; [reflexivity|].
  destruct (startsWith (String c a) CRLF) eqn:E.
  - apply startsWith_crlf_inv in E as (rest & -> & ->).
    cbn [String.append].
    rewrite !normalize_crlf_head. cbn [String.append]. f_equal.
    apply (IH (String.length rest)); [cbn; lia | reflexivity].
  - rewrite (normalize_other_head c a E). cbn [String.append].
    rewrite normalize_other_head.
    + f_equal. apply (IH (String.length a)); [cbn; lia | reflexivity].
    + destruct a as [|d a]; cbn in *.
      * destruct b as [|e b]; [now rewrite andb_false_r|].
        cbn in Hb. rewrite andb_true_r in Hb.
        destruct (Ascii.eqb CR c); [|reflexivity]. cbn.
        now rewrite Hb.
      * exact E.
Qed.

(** Every CR LF pair becomes LF ... *)
Lemma normalize_crlf (a b : string) :
  normalizeLineEndings (a +:+ String CR (String LF b))
  = normalizeLineEndings a +:+ String LF (normalizeLineEndings b).
Proof. now rewrite normalize_append. Qed.

(** ... and a CR that no LF follows stays. *)
Lemma normalize_lone_cr (a b : string) :
  startsWith b newline = false ->
  normalizeLineEndings (a +:+ String CR b)
  = normalizeLineEndings a +:+ String CR (normalizeLineEndings b).
Proof.
  intros Hb. rewrite normalize_append by reflexivity. f_equal.
  apply normalize_other_head. cbn. destruct b as [|d b]; [reflexivity|].
  cbn in Hb. rewrite andb_true_r in Hb. cbn. now rewrite Hb.
Qed.

Lemma includes_tail (c : ascii) (s sub : string) :
  includes (String c s) sub = false -> includes s sub = false.
Proof.
  unfold includes. cbn [indexOf].
  destruct (startsWith (String c s) sub); [discriminate|].
  now destruct (indexOf s sub).
Qed.

Lemma includes_head (s sub : string) :
  includes s sub = false -> startsWith s sub = false.
Proof.
  unfold includes. destruct s; cbn [indexOf];
    now destruct (startsWith _ sub).
Qed.

Lemma normalize_without_crlf (s : string) :
  includes s CRLF = false ->
  normalizeLineEndings s = s.
Proof.
  induction s as [|c s IH]; intros H; [reflexivity|].
  rewrite normalize_other_head by now apply includes_head.
  f_equal. apply IH. now apply includes_tail in H.
Qed.

Lemma normalize_shrinks (s : string) :
  includes s CRLF = true ->
  String.length (normalizeLineEndings s) < String.length s.
Proof.
  intros H. apply includes_occurrence in H as (a & b & ->).
  change (CRLF +:+ b) with (String CR (String LF b)).
  rewrite normalize_crlf, !length_append. cbn.
  pose proof (length_normalize a). pose proof (length_normalize b). lia.
Qed.

(** ** The fence of the rendered diff *)

Lemma growFence_exit (diff : string) (iterations numBackticks : nat) :
  String.length diff < numBackticks + iterations ->
  includes diff
    (JsString.repeat "`" (growFence iterations numBackticks diff)) = false.
Proof.
  revert numBackticks; induction iterations as [|n IH]; intros k Hk; simpl.
  - destruct (includes diff (JsString.repeat "`" k)) eqn:E; [|reflexivity].
    apply includes_length in E. rewrite length_repeat in E. lia.
  - destruct (includes diff (JsString.repeat "`" k)) eqn:E; [|exact E].
    apply IH. lia.
Qed.

(** The loop that sizes the fence ends within the iterations the model
    grants it: the fence it returns does not occur in the diff. *)
Lemma formatDiff_fence_terminates (diff : string) :
  includes diff
    (JsString.repeat "`" (growFence (String.length diff) 3 diff)) = false.
Proof. apply growFence_exit. lia. Qed.

(** ** Sequential application *)



End EditEngine.

(* ===================================================================== *)
(** * The file system and the computations on it                          *)
(* ===================================================================== *)

Section FsFacts.

Import Fs Server.

Lemma walk_O (m : gmap string node) (fl am : bool) :
  walk 0 m fl am = walkFrom (fun _ _ => inl ELOOP) m fl am.
Proof. reflexivity. Qed.

Lemma walk_S (budget : nat) (m : gmap string node) (fl am : bool) :
  walk (S budget) m fl am = walkFrom (walk budget m fl am) m fl am.
Proof. reflexivity. Qed.

(** A lookup that succeeds still succeeds, with the same answer, when a
    missing last component is tolerated. *)
Lemma walkFrom_allowMissing
    (follow follow' : string -> list string -> errno + string)
    (m : gmap string node) (fl : bool) (segs : list string) :
  (forall c s x, follow c s = inr x -> follow' c s = inr x) ->
  forall cur r,
    walkFrom follow m fl false cur segs = inr r ->
    walkFrom follow' m fl true cur segs = inr r.
Proof.
  intros Hf. induction segs as [|seg rest IH]; intros cur r H; simpl in *;
    [exact H|].
  destruct (String.eqb seg EmptyString || String.eqb seg "."); [now apply IH|].
  destruct (String.eqb seg ".."); [now apply IH|].
  destruct (m !! child cur seg) as [[c| |target]|].
  - exact H.
  - now apply IH.
  - destruct (_ && negb fl); [exact H | now apply Hf].
  - rewrite andb_false_r in H. discriminate.
Qed.

Lemma walk_allowMissing (budget : nat) (m : gmap string node) (fl : bool) :
  forall cur segs r,
    walk budget m fl false cur segs = inr r ->
    walk budget m fl true cur segs = inr r.
Proof.
  induction budget as [|b IH]; intros cur segs r.
  - rewrite !walk_O. apply walkFrom_allowMissing. discriminate.
  - rewrite !walk_S. apply walkFrom_allowMissing. exact IH.
Qed.

(** Replacing the content of a file changes no lookup. *)
Lemma walkFrom_overwrite
    (follow follow' : string -> list string -> errno + string)
    (m : gmap string node) (r c c' : string) (fl am : bool)
    (segs : list string) :
  m !! r = Some (File c) ->
  (forall x s, follow' x s = follow x s) ->
  forall cur,
    walkFrom follow' (<[r := File c']> m) fl am cur segs
    = walkFrom follow m fl am cur segs.
Proof.
  intros Hr Hf. induction segs as [|seg rest IH]; intros cur; simpl;
    [reflexivity|].
  destruct (String.eqb seg EmptyString || String.eqb seg "."); [apply IH|].
  destruct (String.eqb seg ".."); [apply IH|].
  destruct (decide (r = child cur seg)) as [<-|Hne].
  - now rewrite lookup_insert_eq, Hr.
  - rewrite lookup_insert_ne by exact Hne.
    destruct (m !! child cur seg) as [[x| |target]|]; try reflexivity.
    + apply IH.
    + destruct (_ && negb fl); [reflexivity | apply Hf].
Qed.

Lemma walk_overwrite (budget : nat) (m : gmap string node) (r c c' : string)
    (fl am : bool) :
  m !! r = Some (File c) ->
  forall cur segs,
    walk budget (<[r := File c']> m) fl am cur segs
    = walk budget m fl am cur segs.
Proof.
  intros Hr. induction budget as [|b IH]; intros cur segs.
  - rewrite !walk_O. now apply (walkFrom_overwrite _ _ _ _ c).
  - rewrite !walk_S. now apply (walkFrom_overwrite _ _ _ _ c).
Qed.

Lemma lookupNode_File (m : gmap string node) (r c : string) :
  lookupNode m r = Some (File c) -> m !! r = Some (File c).
Proof.
  unfold lookupNode. destruct (String.eqb r "/"); [discriminate | auto].
Qed.

Lemma readFile_inv (w : World) (p raw : string) :
  readFile w p = inr raw ->
  exists r, realpath w p = inr r /\ nodes w !! r = Some (File raw)
            /\ lookupNode (nodes w) r = Some (File raw).
Proof.
  unfold readFile. destruct (realpath w p) as [e|r]; [discriminate|].
  destruct (lookupNode (nodes w) r) as [[c| |t]|] eqn:E; try discriminate.
  intros [= ->]. exists r. auto using lookupNode_File.
Qed.

(** Writing a file that can be read comes down to the kernel's leave: when
    the call is not refused it replaces the content of the file and adds
    one entry to the trace. *)
Lemma writeFile_existing (w : World) (p raw content : string) :
  readFile w p = inr raw ->
  exists r,
    realpath w p = inr r
    /\ nodes w !! r = Some (File raw)
    /\ writeFile w p content
       = perform (WriteFile p content) (<[r := File content]> (nodes w)) w.
Proof.
  intros H. apply readFile_inv in H as (r & Hr & Hn & Hl).
  exists r. repeat split; try assumption.
  unfold writeFile, creationTarget. unfold realpath in Hr.
  destruct (JsString.isEmpty p); [discriminate|].
  unfold lookupPath in *. apply walk_allowMissing in Hr.
  now rewrite Hr, Hl.
Qed.


(** ... and what was written is what is read back. *)
Lemma readFile_after_write (w w' : World) (p raw content : string) :
  readFile w p = inr raw ->
  writeFile w p content = inr w' ->
  readFile w' p = inr content.
Proof.
  intros H Hw.
  destruct (writeFile_existing w p raw content H) as (r & Hr & Hn & E).
  rewrite E in Hw. unfold perform in Hw.
  destruct (refuses w (WriteFile p content)); [discriminate|].
  injection Hw as <-.
  apply readFile_inv in H as (r' & Hr' & _ & Hl).
  rewrite Hr in Hr'. injection Hr' as <-.
  assert (Hroot : String.eqb r "/" = false).
  { unfold lookupNode in Hl. destruct (String.eqb r "/"); [discriminate|].
    reflexivity. }
  unfold readFile, realpath, lookupPath in *. cbn [record Fs.nodes Fs.cwd].
  destruct (JsString.isEmpty p); [discriminate|].
  rewrite (walk_overwrite _ _ _ raw) by exact Hn. rewrite Hr.
  unfold lookupNode. rewrite Hroot.
  now rewrite lookup_insert_eq.
Qed.

(** ** Computations that only read *)

Lemma readOnly_ret {A : Type} (a : A) : Aux.readOnly (ret a).
Proof. intros w; reflexivity. Qed.

Lemma readOnly_throw {A : Type} (e : error) : Aux.readOnly (@throw A e).
Proof. intros w; reflexivity. Qed.

Lemma readOnly_query {A : Type} (f : World -> errno + A) :
  Aux.readOnly (query f).
Proof. intros w; unfold query; now destruct (f w). Qed.

Lemma readOnly_bind {A B : Type} (m : M A) (k : A -> M B) :
  Aux.readOnly m -> (forall a, Aux.readOnly (k a)) ->
  Aux.readOnly (bind m k).
Proof.
  intros Hm Hk w. unfold bind. specialize (Hm w).
  destruct (m w) as [[a|e|] w1]; simpl in Hm; subst w1; auto.
  apply Hk.
Qed.

Lemma readOnly_tryCatch {A : Type} (m : M A) (handler : error -> M A) :
  Aux.readOnly m -> (forall e, Aux.readOnly (handler e)) ->
  Aux.readOnly (tryCatch m handler).
Proof.
  intros Hm Hh w. unfold tryCatch. specialize (Hm w).
  destruct (m w) as [[a|e|] w1]; simpl in Hm; subst w1; auto.
  apply Hh.
Qed.

Lemma readOnly_if {A : Type} (b : bool) (m1 m2 : M A) :
  Aux.readOnly m1 -> Aux.readOnly m2 ->
  Aux.readOnly (if b then m1 else m2).
Proof. now destruct b. Qed.

(** Validation touches nothing. *)
Lemma validatePath_readOnly (allowedDirectories : list string)
    (requestedPath : string) :
  Aux.readOnly (validatePath allowedDirectories requestedPath).
Proof.
  unfold validatePath, expandHome.
  apply readOnly_bind;
    [apply readOnly_bind;
       [intros w; reflexivity | intros; apply readOnly_ret]|].
  intros expandedPath. apply readOnly_bind; [intros w; reflexivity|].
  intros here. apply readOnly_if; [apply readOnly_throw|].
  apply readOnly_tryCatch.
  - apply readOnly_bind; [apply readOnly_query|]. intros realPath.
    apply readOnly_if; [apply readOnly_throw | apply readOnly_ret].
  - intros _. apply readOnly_tryCatch; [|intros; apply readOnly_throw].
    apply readOnly_bind; [apply readOnly_query|]. intros realParentPath.
    apply readOnly_if; [apply readOnly_throw | apply readOnly_ret].
Qed.

Lemma validatePath_world (allowedDirectories : list string)
    (requestedPath : string) (w w' : World) (r : outcome string) :
  validatePath allowedDirectories requestedPath w = (r, w') -> w' = w.
Proof.
  intros H. pose proof (validatePath_readOnly allowedDirectories
                          requestedPath w) as E.
  now rewrite H in E.
Qed.

(** ** Exceptions a computation cannot throw *)

Section NeverThrows.

Context {A : Type} (kind : error -> bool).

Lemma neverThrows_ret (a : A) : Aux.neverThrows kind (ret a).
Proof. intros w e w' H; discriminate. Qed.

Lemma neverThrows_outOfFuel : Aux.neverThrows kind (@outOfFuel A).
Proof. intros w e w' H; discriminate. Qed.

Lemma neverThrows_throw (e : error) :
  kind e = false -> Aux.neverThrows kind (@throw A e).
Proof. intros He w e' w' H. now injection H as <- _. Qed.

Lemma neverThrows_query (f : World -> errno + A) :
  (forall e, kind (SystemError e) = false) ->
  Aux.neverThrows kind (query f).
Proof.
  intros Hk w e w' H. unfold query in H.
  destruct (f w); [|discriminate]. now injection H as <- _.
Qed.

Lemma neverThrows_tryCatch (m : M A) (handler : error -> M A) :
  (forall e, Aux.neverThrows kind (handler e)) ->
  Aux.neverThrows kind (tryCatch m handler).
Proof.
  intros Hh w e w' H. unfold tryCatch in H.
  destruct (m w) as [[a|e0|] w1]; try discriminate.
  exact (Hh e0 w1 e w' H).
Qed.

Lemma neverThrows_if (b : bool) (m1 m2 : M A) :
  Aux.neverThrows kind m1 -> Aux.neverThrows kind m2 ->
  Aux.neverThrows kind (if b then m1 else m2).
Proof. now destruct b. Qed.

End NeverThrows.

Lemma neverThrows_command (kind : error -> bool)
    (f : World -> errno + World) :
  (forall e, kind (SystemError e) = false) ->
  Aux.neverThrows kind (command f).
Proof.
  intros Hk w e w' H. unfold command in H.
  destruct (f w); [|discriminate]. now injection H as <- _.
Qed.

Lemma neverThrows_bind {A B : Type} (kind : error -> bool) (m : M A)
    (k : A -> M B) :
  Aux.neverThrows kind m -> (forall a, Aux.neverThrows kind (k a)) ->
  Aux.neverThrows kind (bind m k).
Proof.
  intros Hm Hk w e w' H. unfold bind in H.
  destruct (m w) as [[a|e0|] w1] eqn:E; try discriminate.
  - exact (Hk a w1 e w' H).
  - injection H as <- <-. exact (Hm w e0 w1 E).
Qed.

Lemma neverThrows_forEach {A : Type} (kind : error -> bool) (l : list A)
    (body : A -> M unit) :
  (forall x, Aux.neverThrows kind (body x)) ->
  Aux.neverThrows kind (forEach l body).
Proof.
  intros Hb. induction l as [|x l IH]; simpl.
  - apply neverThrows_ret.
  - apply neverThrows_bind; [apply Hb | intros _; exact IH].
Qed.

End FsFacts.

(** Decomposes a goal [neverThrows kind m] along the structure of [m]. *)
Ltac never_throws :=
  repeat first
    [ apply neverThrows_ret
    | apply neverThrows_outOfFuel
    | apply neverThrows_throw; reflexivity
    | apply neverThrows_query; intros; reflexivity
    | apply neverThrows_command; intros; reflexivity
    | apply neverThrows_tryCatch; intros ?
    | apply neverThrows_if
    | apply neverThrows_bind; [|intros ?] ].

(* ===================================================================== *)
(** * What the edit engine guarantees                                     *)
(* ===================================================================== *)

Section EditClaims.

Import JsString Server.

Variable allowedDirectories : list string.
Variable createTwoFilesPatch :
  string -> string -> string -> string -> string -> string -> string.

(** The whole of [applyFileEdits], once the file has been read. *)
Lemma applyFileEdits_run (w : Fs.World) (filePath : string)
    (edits : list EditOperation) (dryRun : bool) (raw : string) :
  Fs.readFile w filePath = inr raw ->
  applyFileEdits createTwoFilesPatch filePath edits dryRun w
  = match applyEdits (normalizeLineEndings raw) edits with
    | inl e => (Throw e, w)
    | inr modified =>
        let formatted :=
          formatDiff (createUnifiedDiff createTwoFilesPatch
                        (normalizeLineEndings raw) modified filePath) in
        if dryRun then (Return formatted, w)
        else
          match Fs.writeFile w filePath modified with
          | inl e => (Throw (SystemError e), w)
          | inr w' => (Return formatted, w')
          end
    end.
Proof.
  intros H. unfold applyFileEdits, bind, query. rewrite H.
  destruct (applyEdits (normalizeLineEndings raw) edits) as [e|modified];
    [reflexivity|].
  destruct dryRun; [reflexivity|]. cbn. unfold command.
  now destruct (Fs.writeFile w filePath modified).
Qed.

(** C7. The exact-substring strategy is claimed to put the replacement text
    itself in place of the first occurrence of the search text.  The program
    replaces with [String.prototype.replace], which reads the replacement as
    a template: here the search text ["0"] occurs in the buffer ["PID=0"],
    the replacement is ["$$"], and the region that replaces the occurrence
    is ["$"], not the replacement text. *)
Theorem exact_strategy_expands_dollar_patterns :
  let buffer := "PID=0" in
  let edit := mkEdit "0" "$$" in
  includes buffer (normalizeLineEndings (oldText edit)) = true
  /\ indexOf buffer (normalizeLineEndings (oldText edit)) = Some 4
  /\ applyEdit buffer edit = inr "PID=$"
  /\ "PID=$" <> take 4 buffer +:+ normalizeLineEndings (newText edit)
                +:+ drop 5 buffer.
Proof. repeat split; try reflexivity. discriminate. Qed.

(** When no [$] occurs in the replacement the exact strategy does what is
    expected of it: the text before the first occurrence and the text after
    it are kept, and the replacement stands between them. *)
Lemma exact_strategy_literal (buffer : string) (edit : EditOperation)
    (i : nat) :
  indexOf buffer (normalizeLineEndings (oldText edit)) = Some i ->
  Aux.noDollar (normalizeLineEndings (newText edit)) = true ->
  applyEdit buffer edit
  = inr (take i buffer +:+ normalizeLineEndings (newText edit)
         +:+ drop (i + String.length (normalizeLineEndings (oldText edit)))
                  buffer)
  /\ forall j, j < i ->
       startsWith (drop j buffer) (normalizeLineEndings (oldText edit))
       = false.
Proof.
  intros Hi Hd. split.
  - unfold applyEdit, includes. rewrite Hi.
    now rewrite (replace_literal _ _ _ i Hi Hd).
  - now apply indexOf_Some in Hi.
Qed.

(** C6. When the search text does not occur verbatim in the buffer and [i]
    is the lowest line index at which the search lines equal the buffer
    lines after trimming, the edit succeeds and replaces exactly the lines
    of that window; replacement line 0 is the indentation of buffer line [i]
    followed by its own stripped content, and a later replacement line [j]
    is that indentation, then as many spaces as its leading white space
    exceeds that of search line [j] (none when it does not), then its
    stripped content, when both lines have leading white space, and is
    unchanged otherwise. *)
Theorem whitespace_tolerant_strategy (buffer : string)
    (edit : EditOperation) (i : nat) :
  let search := normalizeLineEndings (oldText edit) in
  let replacement := normalizeLineEndings (newText edit) in
  let searchLines := split LF search in
  let bufferLines := split LF buffer in
  let indentation := leadingWhiteSpace (nth i bufferLines EmptyString) in
  includes buffer search = false ->
  Spec.lowestWindow searchLines bufferLines i ->
  exists newLines,
    applyEdit buffer edit
    = inr (join newline
             (firstn i bufferLines ++ newLines
              ++ skipn (i + length searchLines) bufferLines)%list)
    /\ length newLines = length (split LF replacement)
    /\ forall j line,
         nth_error (split LF replacement) j = Some line ->
         nth_error newLines j
         = Some (Spec.reindentedLine indentation (nth_error searchLines j)
                   j line).
Proof.
  intros search replacement searchLines bufferLines indentation Hexact Hlow.
  exists (mapi (reindent indentation searchLines) 0 (split LF replacement)).
  split; [|split].
  - unfold applyEdit. fold search. rewrite Hexact.
    unfold lineMatchReplace. fold searchLines bufferLines.
    now rewrite (findWindow_of_lowestWindow _ _ i Hlow).
  - apply length_mapi.
  - intros j line Hj. rewrite (nth_error_mapi _ 0 j _ line Hj).
    cbn [Nat.add]. now rewrite reindent_spec.
Qed.


(** C9. A successful [edit_file] with [dryRun] false leaves in the file the
    result of the edits applied to the content with its line endings
    normalised: with no edit at all, the normalised content itself, which
    differs from what was there when that contained CR LF.  Normalisation
    turns each CR LF into LF, keeps a CR that no LF follows, and changes
    nothing in a text without CR LF. *)
Theorem edit_file_persists_normalized (w w' : Fs.World) (path : string)
    (edits : list EditOperation) (formattedDiff : string) :
  edit_file allowedDirectories createTwoFilesPatch path edits false w
  = (Return formattedDiff, w') ->
  (exists validPath raw modified,
      validatePath allowedDirectories path w = (Return validPath, w)
      /\ Fs.readFile w validPath = inr raw
      /\ applyEdits (normalizeLineEndings raw) edits = inr modified
      /\ Fs.readFile w' validPath = inr modified
      /\ (edits = [] -> modified = normalizeLineEndings raw)
      /\ (edits = [] ->
          includes raw CRLF = true ->
          modified <> raw))
  /\ (forall a b,
        normalizeLineEndings (a +:+ String CR (String LF b))
        = normalizeLineEndings a +:+ String LF (normalizeLineEndings b))
  /\ (forall a b,
        startsWith b newline = false ->
        normalizeLineEndings (a +:+ String CR b)
        = normalizeLineEndings a +:+ String CR (normalizeLineEndings b))
  /\ (forall text,
        includes text CRLF = false ->
        normalizeLineEndings text = text).
Proof.
  intros H.
  split; [|split; [apply normalize_crlf
                  |split; [apply normalize_lone_cr
                          |apply normalize_without_crlf]]].
  unfold edit_file, bind in H.
  destruct (validatePath allowedDirectories path w)
    as [[validPath|e|] w1] eqn:Hv; try discriminate.
  pose proof (validatePath_world _ _ _ _ _ Hv) as ->.
  destruct (Fs.readFile w validPath) as [e|raw] eqn:Hread.
  { unfold applyFileEdits, bind, query in H. rewrite Hread in H.
    discriminate. }
  rewrite (applyFileEdits_run _ _ _ _ _ Hread) in H.
  destruct (applyEdits (normalizeLineEndings raw) edits) as [e|modified]
    eqn:Hm; [discriminate|].
  cbn in H.
  destruct (Fs.writeFile w validPath modified) as [e|w2] eqn:Hw;
    [discriminate|].
  injection H as _ <-.
  exists validPath, raw, modified. repeat split; try assumption.
  - exact (readFile_after_write _ _ _ _ _ Hread Hw).
  - intros ->. cbn in Hm. now injection Hm as <-.
  - intros -> Hcrlf ->. cbn in Hm. injection Hm as Hm.
    apply normalize_shrinks in Hcrlf. rewrite Hm in Hcrlf. lia.
Qed.

End EditClaims.

(** The hypotheses of C6 hold of a search block that differs from the
    buffer in indentation only, and matches at line 1. *)
Lemma whitespace_tolerant_strategy_witness :
  let buffer := Scenario.lines ["begin"; "  if x:"; "      y = 1"] in
  let edit :=
    Server.mkEdit (Scenario.lines ["if x:"; "  y = 1"])
                  (Scenario.lines ["if z:"; "    y = 2"]) in
  let searchLines := ["if x:"; "  y = 1"] in
  let bufferLines := ["begin"; "  if x:"; "      y = 1"] in
  JsString.includes buffer (Server.normalizeLineEndings (Server.oldText edit))
  = false
  /\ Spec.lowestWindow searchLines bufferLines 1
  /\ exists newLines,
       Server.applyEdit buffer edit
       = inr (JsString.join Server.newline
                (firstn 1 bufferLines ++ newLines
                 ++ skipn (1 + length searchLines) bufferLines)%list)
       /\ length newLines = 2
       /\ forall j line,
            nth_error ["if z:"; "    y = 2"] j = Some line ->
            nth_error newLines j
            = Some (Spec.reindentedLine "  " (nth_error searchLines j)
                      j line).
Proof.
  intros buffer edit searchLines bufferLines.
  assert (Hlow : Spec.lowestWindow searchLines bufferLines 1).
  { split.
    - apply windowMatches_isMatch. split; [vm_compute; lia | reflexivity].
    - intros i' Hi' Hw. apply windowMatches_isMatch in Hw as [_ Hw].
      assert (i' = 0) as -> by lia. discriminate. }
  split; [reflexivity|]. split; [exact Hlow|].
  exact (whitespace_tolerant_strategy buffer edit 1 eq_refl Hlow).
Defined.


(** The hypothesis of C9 holds of the file with CR LF endings: an empty
    list of edits rewrites it. *)
Lemma edit_file_persists_normalized_witness :
  exists formattedDiff w',
    Server.edit_file Scenario.allowed Scenario.renderPatch
      "/sandbox/dos.txt" [] false Scenario.notesWorld
    = (Server.Return formattedDiff, w')
    /\ Fs.readFile w' "/sandbox/dos.txt"
       = inr ("one" +:+ Server.newline +:+ "two"
              +:+ String Server.CR EmptyString).
Proof.
  eexists _, _. split; [vm_compute; reflexivity|].
  match goal with
  | |- Fs.readFile ?w' _ = _ =>
      destruct (edit_file_persists_normalized Scenario.allowed
                  Scenario.renderPatch Scenario.notesWorld w'
                  "/sandbox/dos.txt" [] _ eq_refl)
        as ((validPath & raw & modified & Hv & Hr & _ & Hw & Hm & _) & _)
  end.
  vm_compute in Hv. injection Hv as <-.
  vm_compute in Hr. injection Hr as <-.
  rewrite Hw, (Hm eq_refl). reflexivity.
Defined.

(* ===================================================================== *)
(** * The path validator and the start of the server                      *)
(* ===================================================================== *)

Section Validator.

Import Server.

Variable allowedDirectories : list string.

(** The first containment check is the prefix test on the normalised
    absolute path. *)
Lemma validatePath_check1 (w : Fs.World) (requestedPath : string) :
  validatePath allowedDirectories requestedPath w
  = if isInAllowed allowedDirectories
         (normalizePath (Aux.absoluteOf w requestedPath))
    then
      tryCatch
        (let! realPath :=
           query (fun w => Fs.realpath w (Aux.absoluteOf w requestedPath)) in
         if negb (isInAllowed allowedDirectories (normalizePath realPath))
         then throw AccessDeniedSymlinkTarget
         else ret realPath)
        (fun _ =>
           let parentDir := NodePath.dirname (Aux.absoluteOf w requestedPath) in
           tryCatch
             (let! realParentPath := query (fun w => Fs.realpath w parentDir) in
              if negb (isInAllowed allowedDirectories
                         (normalizePath realParentPath))
              then throw AccessDeniedParent
              else ret (Aux.absoluteOf w requestedPath))
             (fun _ => throw (ParentMissing parentDir))) w
    else (Throw (AccessDeniedOutside (Aux.absoluteOf w requestedPath)), w).
Proof.
  unfold validatePath, Aux.absoluteOf, expandHome, bind, homedir, cwd, ret.
  cbn beta iota.
  now destruct (isInAllowed allowedDirectories _).
Qed.

(** A path no allowed directory is a prefix of is refused at once. *)
Lemma validatePath_outside (w : Fs.World) (requestedPath : string) :
  isInAllowed allowedDirectories
    (normalizePath (Aux.absoluteOf w requestedPath)) = false ->
  validatePath allowedDirectories requestedPath w
  = (Throw (AccessDeniedOutside (Aux.absoluteOf w requestedPath)), w).
Proof. intros H. now rewrite validatePath_check1, H. Qed.

(** Past the first check, every exception the function throws from its
    [try] blocks is caught by the [catch] that follows: the only exception
    that leaves the function is [ParentMissing]. *)
Lemma validatePath_after_check1 (w : Fs.World) (requestedPath : string) :
  isInAllowed allowedDirectories
    (normalizePath (Aux.absoluteOf w requestedPath)) = true ->
  (exists validPath,
      validatePath allowedDirectories requestedPath w = (Return validPath, w))
  \/ validatePath allowedDirectories requestedPath w
     = (Throw (ParentMissing
                 (NodePath.dirname (Aux.absoluteOf w requestedPath))), w).
Proof.
  intros H. rewrite validatePath_check1, H.
  unfold tryCatch, bind, query, throw, ret.
  destruct (Fs.realpath w (Aux.absoluteOf w requestedPath)) as [e|realPath].
  - destruct (Fs.realpath w _) as [e'|parent]; [now right|].
    destruct (negb _); [now right | left; eauto].
  - destruct (negb _); [|left; eauto].
    destruct (Fs.realpath w _) as [e'|parent]; [now right|].
    destruct (negb _); [now right | left; eauto].
Qed.

(** So, past the first check, [validatePath] never ends in an exception of
    the [AccessDenied] kind. *)
Lemma validatePath_never_denies_after_check1 (w w' : Fs.World)
    (requestedPath : string) (e : error) :
  isInAllowed allowedDirectories
    (normalizePath (Aux.absoluteOf w requestedPath)) = true ->
  validatePath allowedDirectories requestedPath w = (Throw e, w') ->
  isAccessDenied e = false /\ isParentMissing e = true.
Proof.
  intros Hc H.
  destruct (validatePath_after_check1 w requestedPath Hc) as [[v E]|E];
    rewrite E in H; [discriminate|].
  injection H as <- _. split; reflexivity.
Qed.

(** [validatePath] throws on its own account only: never the exception of
    a handler. *)
Lemma validatePath_neverThrows (kind : error -> bool)
    (requestedPath : string) :
  (forall p, kind (AccessDeniedOutside p) = false) ->
  (forall p, kind (ParentMissing p) = false) ->
  Aux.neverThrows kind (validatePath allowedDirectories requestedPath).
Proof.
  intros Hout Hparent w e w' H.
  destruct (isInAllowed allowedDirectories
              (normalizePath (Aux.absoluteOf w requestedPath))) eqn:Hc.
  - destruct (validatePath_after_check1 w requestedPath Hc) as [[v E]|E];
      rewrite E in H; [discriminate|].
    injection H as <- _. apply Hparent.
  - rewrite (validatePath_outside w requestedPath Hc) in H.
    injection H as <- _. apply Hout.
Qed.

End Validator.

(** C1. A path that exists and whose real path lies outside every allowed
    directory is claimed to be refused with [AccessDenied].  In the world
    with the allowed directory [/sandbox] and the link [/sandbox/link] to
    [/etc/passwd], the real path of the link is [/etc/passwd], no allowed
    directory is a prefix of it, and [validatePath] returns the link: the
    exception of the second check is thrown inside the [try] whose [catch]
    then accepts the path on account of its parent.  Reading the returned
    path reads the file outside. *)
Theorem validatePath_accepts_escaping_symlink :
  Fs.realpath Scenario.escapeWorld "/sandbox/link" = inr "/etc/passwd"
  /\ Server.isInAllowed Scenario.allowed
       (Server.normalizePath "/etc/passwd") = false
  /\ Server.validatePath Scenario.allowed "/sandbox/link" Scenario.escapeWorld
     = (Server.Return "/sandbox/link", Scenario.escapeWorld)
  /\ Fs.readFile Scenario.escapeWorld "/sandbox/link" = inr "root:x:0:0:".
Proof. repeat split; reflexivity. Qed.

(** C2. A path outside every allowed directory is claimed to be refused
    with [AccessDenied], the sibling [/a/bc] of the allowed [/a/b] in
    particular.  The containment test is [startsWith] on strings: [/a/bc]
    begins with [/a/b], passes, and is returned, as is the file under it;
    a sibling that does not exist yet ends in [ParentMissing], not in
    [AccessDenied]. *)
Theorem validatePath_accepts_sibling_prefix :
  Server.validatePath ["/a/b"] "/a/bc" Scenario.siblingsWorld
  = (Server.Return "/a/bc", Scenario.siblingsWorld)
  /\ Server.validatePath ["/a/b"] "/a/bc/secret.txt" Scenario.siblingsWorld
     = (Server.Return "/a/bc/secret.txt", Scenario.siblingsWorld)
  /\ Server.validatePath ["/a/b"] "/a/bd" Scenario.siblingsWorld
     = (Server.Throw (Server.ParentMissing "/a"), Scenario.siblingsWorld).
Proof. repeat split; reflexivity. Qed.

(** Whatever the file system holds, a non-empty argument list starts the
    server: the function that examines the directories is never called. *)
Lemma main_never_examines (w : Fs.World) (args : list string) :
  args <> [] ->
  Server.main w args = Server.Serving (Server.allowedDirectoriesOf w args).
Proof. destruct args; [congruence | reflexivity]. Qed.

(** C4. A directory argument that does not exist, or is not a directory, is
    claimed to stop the process before it serves.  With the argument
    [/nonexistent], or with the file [/sandbox/a.txt], the check written for
    that purpose would stop it, but the program only builds that function:
    the server starts with the argument as its allowed directory. *)
Theorem main_starts_without_directory :
  Fs.stat Scenario.notesWorld "/nonexistent" = inl Fs.ENOENT
  /\ Server.validateDirectories Scenario.notesWorld ["/nonexistent"] = false
  /\ Server.main Scenario.notesWorld ["/nonexistent"]
     = Server.Serving ["/nonexistent"]
  /\ Server.validateDirectories Scenario.notesWorld ["/sandbox/a.txt"] = false
  /\ Server.main Scenario.notesWorld ["/sandbox/a.txt"]
     = Server.Serving ["/sandbox/a.txt"].
Proof. repeat split; reflexivity. Qed.

(* ===================================================================== *)
(** * The handlers that copy and move                                     *)
(* ===================================================================== *)

Section Handlers.

Import Server.

Variable allowedDirectories : list string.

Lemma copyDir_neverThrows (kind : error -> bool) (fuel : nat) :
  (forall e, kind (SystemError e) = false) ->
  forall src dest recursive,
    Aux.neverThrows kind (copyDir fuel src dest recursive).
Proof.
  intros Hk. induction fuel as [|fuel IH]; intros src dest recursive;
    cbn [copyDir].
  - apply neverThrows_outOfFuel.
  - apply neverThrows_bind; [now apply neverThrows_command|]. intros _.
    apply neverThrows_bind; [now apply neverThrows_query|]. intros entries.
    apply neverThrows_bind.
    + apply neverThrows_forEach. intros entry.
      apply neverThrows_if.
      * apply neverThrows_if; [apply IH | apply neverThrows_ret].
      * apply neverThrows_bind; [now apply neverThrows_command|]. intros _.
        apply neverThrows_bind; [now apply neverThrows_query|]. intros _.
        apply neverThrows_bind; [now apply neverThrows_command|]. intros _.
        apply neverThrows_tryCatch. intros _. apply neverThrows_ret.
    + intros _.
      apply neverThrows_bind; [now apply neverThrows_query|]. intros _.
      apply neverThrows_bind; [now apply neverThrows_command|]. intros _.
      apply neverThrows_tryCatch. intros _. apply neverThrows_ret.
Qed.

(** Whatever the file system holds, none of the three handlers ends in the
    exception that reports an existing destination: where it is thrown, the
    [catch] of the same block discards it. *)
Lemma handlers_never_report_existing_destination
    (source destination : string) (fuel : nat) (recursive : bool) :
  Aux.neverThrows isAlreadyExists
    (move_file allowedDirectories source destination)
  /\ Aux.neverThrows isAlreadyExists
       (copy_file allowedDirectories source destination)
  /\ Aux.neverThrows isAlreadyExists
       (copy_directory allowedDirectories fuel source destination recursive).
Proof.
  assert (Hv : forall p, Aux.neverThrows isAlreadyExists
                           (validatePath allowedDirectories p))
    by (intros p; now apply validatePath_neverThrows).
  repeat split.
  - unfold move_file.
    apply neverThrows_bind; [apply Hv | intros ?].
    apply neverThrows_bind; [apply Hv | intros ?].
    never_throws.
  - unfold copy_file.
    apply neverThrows_bind; [apply Hv | intros ?].
    apply neverThrows_bind; [apply Hv | intros ?].
    never_throws.
  - unfold copy_directory.
    apply neverThrows_bind; [apply Hv | intros ?].
    apply neverThrows_bind; [apply Hv | intros ?].
    apply neverThrows_bind; [never_throws | intros ?].
    apply neverThrows_bind; [never_throws | intros ?].
    apply neverThrows_bind; [|intros ?; never_throws].
    now apply copyDir_neverThrows.
Qed.

End Handlers.

(** C3. [move_file], [copy_file] and [copy_directory] are claimed to fail
    with [AlreadyExists], and to change nothing, when the destination
    exists.  In the world where [/sandbox/b.txt] and [/sandbox/dst/f.txt]
    exist, each of the three succeeds and replaces the destination:
    [copy_file] and [copy_directory] throw the exception inside the [try]
    whose [catch] discards it, and [move_file] makes no test at all. *)
Theorem handlers_overwrite_existing_destination :
  let w := Scenario.copiesWorld in
  let copied :=
    Server.copy_file Scenario.allowed "/sandbox/a.txt" "/sandbox/b.txt" w in
  let moved :=
    Server.move_file Scenario.allowed "/sandbox/a.txt" "/sandbox/b.txt" w in
  Fs.readFile w "/sandbox/b.txt" = inr "old"
  /\ Fs.readFile w "/sandbox/dst/f.txt" = inr "kept so far"
  /\ fst copied
     = Server.Return
         "Archivo copiado exitosamente de /sandbox/a.txt a /sandbox/b.txt"
  /\ Fs.readFile (snd copied) "/sandbox/b.txt" = inr "new"
  /\ Fs.trace (snd copied)
     = [Fs.CopyFile "/sandbox/a.txt" "/sandbox/b.txt";
        Fs.Utimes "/sandbox/b.txt"; Fs.Chmod "/sandbox/b.txt"]
  /\ fst moved
     = Server.Return
         "Archivo movido exitosamente de /sandbox/a.txt a /sandbox/b.txt"
  /\ Fs.readFile (snd moved) "/sandbox/b.txt" = inr "new"
  /\ Fs.trace (snd moved) = [Fs.Rename "/sandbox/a.txt" "/sandbox/b.txt"]
  /\ Server.isError (fst (Server.callTool
        (Server.copy_file Scenario.allowed "/sandbox/a.txt" "/sandbox/b.txt")
        w)) = false
  /\ forall n,
       let copiedDir :=
         Server.copy_directory Scenario.allowed (1 + n)
           "/sandbox/src" "/sandbox/dst" true w in
       fst copiedDir
       = Server.Return
           "Directorio copiado exitosamente de /sandbox/src a /sandbox/dst"
       /\ Fs.readFile (snd copiedDir) "/sandbox/dst/f.txt" = inr "from src".
Proof.
  repeat split; intros; vm_compute; reflexivity.
Qed.

(* ===================================================================== *)
(** * Search and its exclusions                                           *)
(* ===================================================================== *)

Section Globs.

Import JsString Minimatch Server.

#[local] Arguments Ascii.eqb : simpl never.

Lemma split_single (s : string) :
  Aux.noSeparator s = true -> split NodePath.sep s = [s].
Proof.
  induction s as [|c s IH]; simpl; [reflexivity|].
  intros H. apply andb_true_iff in H as [Hc Hs].
  apply negb_true_iff in Hc. rewrite Hc, (IH Hs). reflexivity.
Qed.

Lemma split_first (a b : string) :
  Aux.noSeparator a = true ->
  split NodePath.sep (a +:+ String NodePath.sep b)
  = a :: split NodePath.sep b.
Proof.
  induction a as [|c a IH]; simpl; intros H.
  - reflexivity.
  - apply andb_true_iff in H as [Hc Ha].
    apply negb_true_iff in Hc. rewrite Hc, (IH Ha). reflexivity.
Qed.

Lemma noSeparator_append (a b : string) :
  Aux.noSeparator a = true -> Aux.noSeparator b = true ->
  Aux.noSeparator (a +:+ b) = true.
Proof.
  induction a as [|c a IH]; simpl; intros Ha Hb; [exact Hb|].
  apply andb_true_iff in Ha as [Hc Ha]. now rewrite Hc, IH.
Qed.

(** A path with a name in it has a non-empty segment. *)
Lemma split_hasName (s : string) :
  Aux.hasName s = true ->
  exists x, In x (split NodePath.sep s) /\ isEmpty x = false.
Proof.
  induction s as [|c s IH]; simpl; [discriminate|].
  destruct (Ascii.eqb c NodePath.sep) eqn:E; simpl.
  - intros H. destruct (IH H) as (x & Hin & Hx). exists x. split; auto.
  - intros _. destruct (split NodePath.sep s) as [|h t] eqn:Es.
    + exists (String c EmptyString). split; [now left | reflexivity].
    + exists (String c h). split; [now left | reflexivity].
Qed.

Lemma dropInnerEmpty_keeps (l : list string) (x : string) :
  In x l -> isEmpty x = false -> In x (dropInnerEmpty l).
Proof.
  induction l as [|y l IH]; [contradiction|].
  intros Hin Hx. destruct l as [|z l]; [exact Hin|].
  cbn [dropInnerEmpty]. destruct Hin as [->|Hin].
  - rewrite Hx. now left.
  - destruct (isEmpty y); [|right]; now apply IH.
Qed.

Lemma matchOne_end (file : list string) (x : string) :
  In x file -> isEmpty x = false -> matchOne [] file = false.
Proof.
  destruct file as [|f [|g file]]; simpl; intros Hin Hx;
    [contradiction | | reflexivity].
  now destruct Hin as [->|[]].
Qed.

Lemma matchOne_segment (glob f : string) (fs : list string) :
  matchOne [Segment glob] (f :: fs)
  = segmentMatch glob f && matchOne [] fs.
Proof. reflexivity. Qed.

(** The pattern [*.log] is one segment: a path that goes through a
    directory does not match it ... *)
Lemma star_log_rejects_deeper (dir rest : string) :
  Aux.noSeparator dir = true ->
  Aux.hasName rest = true ->
  minimatch (dir +:+ "/" +:+ rest) "*.log" = false.
Proof.
  intros Hdir Hrest. unfold minimatch. cbn [isEmpty].
  change (map parse (slashSplit "*.log")) with [Segment "*.log"].
  unfold slashSplit.
  change ("/" +:+ rest) with (String NodePath.sep rest).
  rewrite (split_first _ _ Hdir), matchOne_segment.
  destruct (split_hasName rest Hrest) as (x & Hin & Hx).
  rewrite (matchOne_end _ x); [apply andb_false_r | | exact Hx].
  now apply dropInnerEmpty_keeps.
Qed.

Lemma wild_star_log (stem : string) : wild "*.log" (stem +:+ ".log") = true.
Proof.
  induction stem as [|c stem IH]; [reflexivity|].
  change (wild "*.log" (String c stem +:+ ".log"))
    with (wild ".log" (String c (stem +:+ ".log"))
          || wild "*.log" (stem +:+ ".log")).
  rewrite IH. apply orb_true_r.
Qed.

Lemma isDots_long (f : string) : 2 < String.length f -> isDots f = false.
Proof.
  intros H. unfold isDots.
  destruct (String.eqb_spec f ".") as [->|_]; [simpl in H; lia|].
  destruct (String.eqb_spec f "..") as [->|_]; [simpl in H; lia|].
  reflexivity.
Qed.

(** ... and a name that ends in [.log] does. *)
Lemma star_log_accepts_name (stem : string) :
  Aux.noSeparator stem = true ->
  minimatch (stem +:+ ".log") "*.log" = true.
Proof.
  intros Hstem. unfold minimatch. cbn [isEmpty].
  change (map parse (slashSplit "*.log")) with [Segment "*.log"].
  unfold slashSplit.
  rewrite (split_single (stem +:+ ".log"))
    by now apply noSeparator_append.
  cbn [dropInnerEmpty]. rewrite matchOne_segment.
  change (matchOne [] []) with true. rewrite andb_true_r.
  unfold segmentMatch. change (hasMagic "*.log") with true.
  change (startsWithMagic "*.log") with true. cbn match.
  rewrite wild_star_log, andb_true_r.
  assert (Hlen : 2 < String.length (stem +:+ ".log"))
    by (rewrite length_append; simpl; lia).
  rewrite (isDots_long _ Hlen).
  destruct (stem +:+ ".log"); [simpl in Hlen; lia | reflexivity].
Qed.

End Globs.

(** C8. With the exclude pattern ["build"], a search is claimed to return
    no path that has a [build] segment, the [build] directory itself
    included, and never to enter an excluded directory.  The glob made of
    the pattern, [**/build/**], matches what lies below a [build] directory
    and not the directory: in the project whose only directory is
    [/sandbox/build], the search of the root pushes [/sandbox/build] and
    calls itself on that directory, and a search for ["build"] returns
    [/sandbox/build]. *)
Theorem search_returns_excluded_directory :
  Server.globPattern "build" = "**/build/**"
  /\ Minimatch.inFragment "**/build/**" = true
  /\ Minimatch.minimatch "build" "**/build/**" = false
  /\ Minimatch.minimatch "build/out.js" "**/build/**" = true
  /\ (forall fuel,
        Server.search Scenario.allowed (S fuel) Scenario.projectWorld
          "/sandbox" "build" ["build"] "/sandbox" []
        = match
            Server.search Scenario.allowed fuel Scenario.projectWorld
              "/sandbox" "build" ["build"] "/sandbox/build" ["/sandbox/build"]
          with
          | (Server.OutOfFuel, results) => (Server.OutOfFuel, results)
          | (_, results) => (Server.Return tt, results)
          end)
  /\ forall n,
       Server.search_files Scenario.allowed (2 + n) "/sandbox" "build"
         ["build"] Scenario.projectWorld
       = (Server.Return "/sandbox/build", Scenario.projectWorld).
Proof.
  repeat split; intros; vm_compute; reflexivity.
Qed.

(* ===================================================================== *)
(** * What the search has checked of its results                          *)
(* ===================================================================== *)

Section SearchFacts.

Import JsString Minimatch Server.

Variable allowedDirectories : list string.

(** The search only appends to the array of results, and each path it
    appends is the path of a qualifying entry whose name matches. *)
Lemma search_appends_found (w : Fs.World) (rootPath pattern : string)
    (excludePatterns : list string) (fuel : nat) :
  forall currentPath results out results',
    search allowedDirectories fuel w rootPath pattern excludePatterns
      currentPath results = (out, results') ->
    exists added,
      results' = (results ++ added)%list
      /\ Forall (Aux.found allowedDirectories w rootPath pattern
                   excludePatterns) added.
Proof.
  induction fuel as [|fuel IH]; intros currentPath results out results' H.
  - injection H as _ <-. exists []. now rewrite List.app_nil_r.
  - cbn [search] in H.
    destruct (Fs.readdir w currentPath) as [e|entries] eqn:Hrd.
    { injection H as _ <-. exists []. now rewrite List.app_nil_r. }
    match type of H with
    | ?loop entries results = _ =>
        enough (Hgen : forall es results out results',
                   (forall entry, In entry es -> In entry entries) ->
                   loop es results = (out, results') ->
                   exists added,
                     results' = (results ++ added)%list
                     /\ Forall (Aux.found allowedDirectories w rootPath
                                  pattern excludePatterns) added)
          by exact (Hgen _ _ _ _ (fun _ Hin => Hin) H)
    end.
    clear H results out results'. intros es.
    induction es as [|entry rest IHe]; intros results out results' Hsub H.
    + injection H as _ <-. exists []. now rewrite List.app_nil_r.
    + assert (Hrest : forall entry, In entry rest -> In entry entries)
        by (intros x Hx; apply Hsub; now right).
      specialize (fun results out results' => IHe results out results' Hrest).
      cbn beta iota zeta in H.
      destruct (fst (validatePath allowedDirectories
                       (NodePath.join [currentPath; Fs.name entry]) w))
        as [validPath|e|] eqn:Hv.
      * destruct (shouldExclude excludePatterns _) eqn:Hex;
          [exact (IHe _ _ _ H)|].
        assert (Hfound : nameMatches (Fs.name entry) pattern = true ->
                  Aux.found allowedDirectories w rootPath pattern
                    excludePatterns
                    (NodePath.join [currentPath; Fs.name entry])).
        { intros Hn. exists currentPath, entry.
          split; [reflexivity|]. split; [|exact Hn].
          split; [|split; [eauto | exact Hex]].
          exists entries. split; [exact Hrd | apply Hsub; now left]. }
        destruct (nameMatches (Fs.name entry) pattern) eqn:Hn.
        -- destruct (Fs.isDirectory entry).
           ++ destruct (search allowedDirectories fuel w rootPath pattern
                          excludePatterns _ _) as [o results2] eqn:Hs.
              destruct (IH _ _ _ _ Hs) as (added2 & -> & Hf2).
              assert (Hall : Forall (Aux.found allowedDirectories w rootPath
                                       pattern excludePatterns)
                               (NodePath.join [currentPath; Fs.name entry]
                                :: added2))
                by (constructor; auto).
              destruct o.
              ** destruct (IHe _ _ _ H) as (added3 & -> & Hf3).
                 exists ((NodePath.join [currentPath; Fs.name entry]
                          :: added2) ++ added3)%list.
                 split; [now rewrite <- !List.app_assoc|].
                 apply Forall_app. split; [exact Hall | exact Hf3].
              ** destruct (IHe _ _ _ H) as (added3 & -> & Hf3).
                 exists ((NodePath.join [currentPath; Fs.name entry]
                          :: added2) ++ added3)%list.
                 split; [now rewrite <- !List.app_assoc|].
                 apply Forall_app. split; [exact Hall | exact Hf3].
              ** injection H as _ <-.
                 exists (NodePath.join [currentPath; Fs.name entry]
                         :: added2).
                 split; [now rewrite <- !List.app_assoc|]. exact Hall.
           ++ destruct (IHe _ _ _ H) as (added3 & -> & Hf3).
              exists (NodePath.join [currentPath; Fs.name entry] :: added3).
              split; [now rewrite <- !List.app_assoc|].
              constructor; auto.
        -- destruct (Fs.isDirectory entry).
           ++ destruct (search allowedDirectories fuel w rootPath pattern
                          excludePatterns _ _) as [o results2] eqn:Hs.
              destruct (IH _ _ _ _ Hs) as (added2 & -> & Hf2).
              destruct o.
              ** destruct (IHe _ _ _ H) as (added3 & -> & Hf3).
                 eexists. rewrite <- !List.app_assoc. split; [reflexivity|].
                 apply Forall_app. split; [exact Hf2 | exact Hf3].
              ** destruct (IHe _ _ _ H) as (added3 & -> & Hf3).
                 eexists. rewrite <- !List.app_assoc. split; [reflexivity|].
                 apply Forall_app. split; [exact Hf2 | exact Hf3].
              ** injection H as _ <-. eauto.
           ++ exact (IHe _ _ _ H).
      * exact (IHe _ _ _ H).
      * injection H as _ <-. exists []. now rewrite List.app_nil_r.
Qed.

Lemma searchFiles_found (w w' : Fs.World) (fuel : nat)
    (rootPath pattern : string) (excludePatterns results : list string) :
  searchFiles allowedDirectories fuel rootPath pattern excludePatterns w
  = (Return results, w') ->
  Forall (Aux.found allowedDirectories w rootPath pattern excludePatterns)
    results.
Proof.
  intros H. unfold searchFiles in H.
  destruct (search allowedDirectories fuel w rootPath pattern
              excludePatterns rootPath []) as [[u|e|] res] eqn:Hs;
    try discriminate.
  injection H as <- _.
  now destruct (search_appends_found _ _ _ _ _ _ _ _ _ Hs)
    as (added & -> & Hf).
Qed.

End SearchFacts.

(** C10. An exclude pattern is wrapped into [**/pattern/**] only when it
    contains no [*]; one that does is matched as it is against the path
    relative to the root of the search.  That is what [shouldExclude]
    matches a relative path against, for every list of patterns, and no
    path that [searchFiles] returns is matched in that way by any of its
    exclude patterns.  So [*.log] excludes a name ending in [.log] directly
    under the root, and no path that goes through a directory: searching
    the scenario for ["log"] returns the file at depth two only. *)
Theorem exclude_pattern_with_star_is_literal :
  (forall excludePatterns relativePath,
      Server.shouldExclude excludePatterns relativePath = true
      <-> exists pattern,
            In pattern excludePatterns
            /\ Minimatch.minimatch relativePath
                 (if JsString.includes pattern "*" then pattern
                  else "**/" +:+ pattern +:+ "/**") = true)
  /\ (forall allowedDirectories fuel rootPath pattern excludePatterns w w'
             results,
        Server.searchFiles allowedDirectories fuel rootPath pattern
          excludePatterns w = (Server.Return results, w') ->
        forall fullPath exclude,
          In fullPath results ->
          In exclude excludePatterns ->
          Minimatch.minimatch
            (NodePath.relative (Fs.cwd w) rootPath fullPath)
            (if JsString.includes exclude "*" then exclude
             else "**/" +:+ exclude +:+ "/**") = false)
  /\ (forall pattern,
        JsString.includes pattern "*" = false ->
        Server.globPattern pattern = "**/" +:+ pattern +:+ "/**")
  /\ (forall pattern,
        JsString.includes pattern "*" = true ->
        Server.globPattern pattern = pattern)
  /\ Minimatch.inFragment "*.log" = true
  /\ (forall stem,
        Aux.noSeparator stem = true ->
        Server.shouldExclude ["*.log"] (stem +:+ ".log") = true)
  /\ (forall dir rest,
        Aux.noSeparator dir = true ->
        Aux.hasName rest = true ->
        Server.shouldExclude ["*.log"] (dir +:+ "/" +:+ rest) = false)
  /\ (forall n,
        Server.search_files Scenario.allowed (2 + n) "/sandbox" "log"
          ["*.log"] Scenario.logsWorld
        = (Server.Return "/sandbox/old/app.log", Scenario.logsWorld)).
Proof.
  assert (Hshould : forall excludePatterns relativePath,
            Server.shouldExclude excludePatterns relativePath = true
            <-> exists pattern,
                  In pattern excludePatterns
                  /\ Minimatch.minimatch relativePath
                       (if JsString.includes pattern "*" then pattern
                        else "**/" +:+ pattern +:+ "/**") = true).
  { intros excludePatterns relativePath. unfold Server.shouldExclude.
    rewrite existsb_exists. reflexivity. }
  split; [exact Hshould|].
  split; [|split; [|split; [|split; [|split; [|split]]]]].
  - intros allowedDirectories fuel rootPath pattern excludePatterns w w'
      results H fullPath exclude Hin Hex.
    apply searchFiles_found in H.
    apply (proj1 (List.Forall_forall _ _) H) in Hin.
    destruct Hin as (dir & entry & -> & (_ & _ & Hno) & _).
    destruct (Minimatch.minimatch _ _) eqn:E; [|reflexivity].
    assert (Hyes : Server.shouldExclude excludePatterns
                     (NodePath.relative (Fs.cwd w) rootPath
                        (NodePath.join [dir; Fs.name entry])) = true)
      by (apply Hshould; eauto).
    congruence.
  - intros pattern H. unfold Server.globPattern. now rewrite H.
  - intros pattern H. unfold Server.globPattern. now rewrite H.
  - reflexivity.
  - intros stem H. unfold Server.shouldExclude. cbn [existsb].
    change (Server.globPattern "*.log") with "*.log".
    now rewrite star_log_accepts_name.
  - intros dir rest Hd Hr. unfold Server.shouldExclude. cbn [existsb].
    change (Server.globPattern "*.log") with "*.log".
    now rewrite star_log_rejects_deeper.
  - intros n. vm_compute. reflexivity.
Qed.

(** The hypotheses of C10 hold of the two paths of the scenario, and of
    its search. *)
Lemma exclude_pattern_with_star_is_literal_witness :
  JsString.includes "*.log" "*" = true
  /\ Aux.noSeparator "app" = true
  /\ Aux.noSeparator "old" = true
  /\ Aux.hasName "app.log" = true
  /\ Server.globPattern "*.log" = "*.log"
  /\ Server.shouldExclude ["*.log"] "app.log" = true
  /\ Server.shouldExclude ["*.log"] "old/app.log" = false
  /\ (exists pattern,
        In pattern ["build"; "*.log"]
        /\ Minimatch.minimatch "app.log"
             (if JsString.includes pattern "*" then pattern
              else "**/" +:+ pattern +:+ "/**") = true)
  /\ Minimatch.minimatch
       (NodePath.relative "/" "/sandbox" "/sandbox/old/app.log") "*.log"
     = false.
Proof.
  pose proof exclude_pattern_with_star_is_literal
    as (Hshould & Hsearch & _ & Hstar & _ & Hname & Hdeeper & _).
  split; [reflexivity|]. split; [reflexivity|]. split; [reflexivity|].
  split; [reflexivity|].
  split; [apply Hstar; reflexivity|].
  split; [apply (Hname "app"); reflexivity|].
  split; [apply (Hdeeper "old" "app.log"); reflexivity|].
  split.
  - apply (proj1 (Hshould ["build"; "*.log"] "app.log")).
    vm_compute. reflexivity.
  - apply (Hsearch Scenario.allowed 3 "/sandbox" "log" ["*.log"]
             Scenario.logsWorld Scenario.logsWorld
             ["/sandbox/old/app.log"] ltac:(vm_compute; reflexivity)
             "/sandbox/old/app.log" "*.log"); now left.
Defined.

(* ===================================================================== *)
(** * Further properties of the edit engine                               *)
(* ===================================================================== *)

Section EditExtras.

Import JsString Server.

#[local] Arguments Ascii.eqb : simpl never.

Variable createTwoFilesPatch :
  string -> string -> string -> string -> string -> string -> string.

(** ** Lines *)

Lemma split_nonempty (c : ascii) (s : string) :
  exists h t, split c s = h :: t.
Proof.
  destruct s as [|d s]; simpl; [eauto|].
  destruct (Ascii.eqb d c); [eauto|].
  destruct (split c s); eauto.
Qed.

Lemma join_cons (sep x : string) (l : list string) :
  l <> [] -> join sep (x :: l) = x +:+ sep +:+ join sep l.
Proof. destruct l; [congruence | reflexivity]. Qed.

Lemma join_split (c : ascii) (s : string) :
  join (String c EmptyString) (split c s) = s.
Proof.
  induction s as [|d s IH]; [reflexivity|]. cbn [split].
  destruct (split_nonempty c s) as (h & t & E). rewrite E in *.
  destruct (Ascii.eqb_spec d c) as [->|Hd].
  - rewrite join_cons by discriminate. rewrite IH. reflexivity.
  - destruct t as [|y t].
    + unfold join in *. cbn [String.concat] in *. now rewrite IH.
    + rewrite join_cons in * by discriminate.
      cbn [String.append] in *. now rewrite IH.
Qed.

Lemma split_lacks (c : ascii) (s : string) :
  Aux.lacks c s = true -> split c s = [s].
Proof.
  induction s as [|d s IH]; simpl; [reflexivity|].
  intros H. apply andb_true_iff in H as [Hd Hs].
  apply negb_true_iff in Hd. now rewrite Hd, (IH Hs).
Qed.

Lemma split_append_sep (c : ascii) (a b : string) :
  Aux.lacks c a = true ->
  split c (a +:+ String c b) = a :: split c b.
Proof.
  induction a as [|d a IH]; simpl; intros H.
  - now rewrite Ascii.eqb_refl.
  - apply andb_true_iff in H as [Hd Ha].
    apply negb_true_iff in Hd. now rewrite Hd, (IH Ha).
Qed.

Lemma split_join (c : ascii) (l : list string) :
  l <> [] ->
  forallb (Aux.lacks c) l = true ->
  split c (join (String c EmptyString) l) = l.
Proof.
  induction l as [|x l IH]; [congruence|]. intros _ H.
  simpl in H. apply andb_true_iff in H as [Hx Hl].
  destruct l as [|y l].
  - simpl. now apply split_lacks.
  - rewrite join_cons by discriminate.
    change (String c EmptyString +:+ join (String c EmptyString) (y :: l))
      with (String c (join (String c EmptyString) (y :: l))).
    rewrite (split_append_sep _ _ _ Hx). f_equal.
    apply IH; [discriminate | exact Hl].
Qed.

(** X1. Cutting a text into lines and joining the lines gives the text
    back, and joining lines that hold no line feed and cutting the result
    gives the lines back: the lines the whitespace-tolerant strategy leaves
    in place are, after the edit, the bytes they were. *)
Theorem lines_round_trip :
  (forall text, join newline (split LF text) = text)
  /\ (forall lines,
        lines <> [] ->
        forallb (Aux.lacks LF) lines = true ->
        split LF (join newline lines) = lines).
Proof. split; [apply join_split | apply split_join]. Qed.

(** ** One edit *)

Lemma indexOf_empty (s : string) : indexOf s EmptyString = Some 0.
Proof. now destruct s. Qed.

(** X2. An edit whose search text is empty never fails: the exact
    strategy applies, and [replace] puts the replacement, read as a
    template at the start of the buffer, in front of the buffer.  That is
    the replacement itself when it holds no [$]. *)
Theorem empty_search_text_prepends (buffer replacement : string) :
  applyEdit buffer (mkEdit EmptyString replacement)
  = inr (getSubstitution (normalizeLineEndings replacement)
           EmptyString EmptyString buffer +:+ buffer)
  /\ (Aux.noDollar (normalizeLineEndings replacement) = true ->
      applyEdit buffer (mkEdit EmptyString replacement)
      = inr (normalizeLineEndings replacement +:+ buffer)).
Proof.
  split.
  - unfold applyEdit, includes, replace. cbn [oldText newText].
    change (normalizeLineEndings EmptyString) with EmptyString.
    rewrite indexOf_empty. reflexivity.
  - intros H. unfold applyEdit, includes. cbn [oldText newText].
    change (normalizeLineEndings EmptyString) with EmptyString.
    rewrite indexOf_empty.
    now rewrite (replace_literal _ _ _ 0 (indexOf_empty buffer) H).
Qed.

Lemma drop_plus (n k : nat) (s : string) :
  drop (k + n) s = drop n (drop k s).
Proof.
  revert s; induction k as [|k IH]; intros s; [reflexivity|].
  destruct s as [|c s]; [now destruct n | apply IH].
Qed.

(** X3. Replacing a text that occurs in the buffer by itself leaves the
    buffer as it is, when the text holds no [$]. *)
Theorem replacing_text_by_itself (buffer text : string) :
  includes buffer (normalizeLineEndings text) = true ->
  Aux.noDollar (normalizeLineEndings text) = true ->
  applyEdit buffer (mkEdit text text) = inr buffer.
Proof.
  intros Hin Hd. unfold applyEdit. cbn [oldText newText]. rewrite Hin.
  unfold includes in Hin.
  destruct (indexOf buffer (normalizeLineEndings text)) as [i|] eqn:Hi;
    [|discriminate].
  rewrite (replace_literal _ _ _ i Hi Hd). f_equal.
  apply indexOf_Some in Hi as (Hs & _ & _).
  apply startsWith_inv in Hs.
  rewrite drop_plus, <- Hs. apply take_drop.
Qed.

(** ** A list of edits *)

Lemma findWindow_none_inv (oldLines contentLines : list string)
    (start remaining : nat) :
  findWindow oldLines contentLines start remaining = None ->
  forall i, start <= i < start + remaining ->
    isMatch oldLines (slice i (length oldLines) contentLines) = false.
Proof.
  revert start; induction remaining as [|n IH]; intros start H i Hi; [lia|].
  simpl in H.
  destruct (isMatch oldLines (slice start (length oldLines) contentLines))
    eqn:E; [discriminate|].
  destruct (Nat.eq_dec i start) as [->|Hne]; [exact E|].
  apply (IH (S start) H). lia.
Qed.

Lemma applyEdit_failure (buffer : string) (edit : EditOperation)
    (e : error) :
  applyEdit buffer edit = inl e ->
  Spec.matchesNeither buffer edit /\ e = EditNotFound (oldText edit).
Proof.
  unfold applyEdit, Spec.matchesNeither, lineMatchReplace.
  destruct (includes buffer _) eqn:Hin; [discriminate|].
  destruct (findWindow _ _ 0 _) eqn:Hf; [discriminate|].
  intros [= <-]. repeat split.
  intros i Hw. apply windowMatches_isMatch in Hw as [Hlen Hm].
  rewrite (findWindow_none_inv _ _ _ _ Hf i) in Hm; [discriminate | lia].
Qed.

(** X4. When a list of edits fails, the exception is [EditNotFound] with
    the search text of the first edit that matches by neither strategy in
    the buffer the edits before it produced. *)
Theorem failed_edits_name_first_unmatched (buffer : string)
    (edits : list EditOperation) (e : error) :
  applyEdits buffer edits = inl e ->
  exists done edit rest reached,
    edits = (done ++ edit :: rest)%list
    /\ applyEdits buffer done = inr reached
    /\ Spec.matchesNeither reached edit
    /\ e = EditNotFound (oldText edit).
Proof.
  revert buffer; induction edits as [|edit edits IH]; intros buffer H;
    [discriminate|].
  cbn [applyEdits] in H.
  destruct (applyEdit buffer edit) as [e'|modified] eqn:E.
  - injection H as <-. apply applyEdit_failure in E as [Hn ->].
    exists [], edit, edits, buffer.
    split; [reflexivity | split; [reflexivity | split; [exact Hn|]]].
    reflexivity.
  - destruct (IH modified H) as (done & ed & rest & reached & -> & Hd & Hn & ->).
    exists (edit :: done), ed, rest, reached.
    split; [reflexivity | split; [|split; [exact Hn | reflexivity]]].
    cbn [applyEdits]. now rewrite E.
Qed.

(** X5. Edits compose: applying one list after another is applying the
    second to the buffer the first leaves, and a failure in the first
    ends both. *)
Theorem edits_compose (buffer : string) (first second : list EditOperation) :
  applyEdits buffer (first ++ second)
  = match applyEdits buffer first with
    | inl e => inl e
    | inr reached => applyEdits reached second
    end.
Proof.
  revert buffer; induction first as [|edit first IH]; intros buffer;
    [reflexivity|].
  cbn [applyEdits List.app].
  destruct (applyEdit buffer edit); [reflexivity | apply IH].
Qed.

(** ** The rendered diff *)

Lemma growFence_spec (diff : string) (iterations numBackticks : nat) :
  String.length diff < numBackticks + iterations ->
  numBackticks <= growFence iterations numBackticks diff
  /\ includes diff
       (JsString.repeat "`" (growFence iterations numBackticks diff)) = false
  /\ forall k,
       numBackticks <= k < growFence iterations numBackticks diff ->
       includes diff (JsString.repeat "`" k) = true.
Proof.
  revert numBackticks; induction iterations as [|n IH]; intros k Hk; simpl.
  - repeat split; [lia | | intros j Hj; lia].
    destruct (includes diff (JsString.repeat "`" k)) eqn:E; [|reflexivity].
    apply includes_length in E. rewrite length_repeat in E. lia.
  - destruct (includes diff (JsString.repeat "`" k)) eqn:E.
    + destruct (IH (S k) ltac:(lia)) as (H1 & H2 & H3).
      repeat split; [lia | exact H2 |].
      intros j Hj. destruct (Nat.eq_dec j k) as [->|Hne]; [exact E|].
      apply H3. lia.
    + repeat split; [lia | exact E | intros j Hj; lia].
Qed.

(** X6. The fence that wraps the diff is the shortest run of three or more
    back-ticks that does not occur in the diff, so nothing inside the diff
    closes the block. *)
Theorem fence_is_shortest_absent_run (diff : string) :
  exists n,
    formatDiff diff
    = JsString.repeat "`" n +:+ "diff" +:+ newline +:+ diff
      +:+ JsString.repeat "`" n +:+ newline +:+ newline
    /\ 3 <= n
    /\ includes diff (JsString.repeat "`" n) = false
    /\ forall k, 3 <= k < n -> includes diff (JsString.repeat "`" k) = true.
Proof.
  exists (growFence (String.length diff) 3 diff).
  split; [reflexivity|]. apply growFence_spec. lia.
Qed.


End EditExtras.

Lemma lines_round_trip_witness :
  [ "a"; "  b"; EmptyString ] <> []
  /\ forallb (Aux.lacks Server.LF) [ "a"; "  b"; EmptyString ] = true
  /\ JsString.split Server.LF
       (JsString.join Server.newline [ "a"; "  b"; EmptyString ])
     = [ "a"; "  b"; EmptyString ].
Proof.
  split; [discriminate|]. split; [reflexivity|].
  apply (proj2 lines_round_trip); [discriminate | reflexivity].
Defined.

Lemma empty_search_text_prepends_witness :
  Server.applyEdit "body" (Server.mkEdit EmptyString "$&# $$ ")
  = inr "# $ body"
  /\ Aux.noDollar (Server.normalizeLineEndings "# title") = true
  /\ Server.applyEdit "body" (Server.mkEdit EmptyString "# title")
     = inr ("# title" +:+ "body").
Proof.
  split; [exact (proj1 (empty_search_text_prepends "body" "$&# $$ "))|].
  split; [reflexivity|].
  apply (proj2 (empty_search_text_prepends "body" "# title")). reflexivity.
Defined.

Lemma replacing_text_by_itself_witness :
  JsString.includes "let x = 1;" (Server.normalizeLineEndings "x = 1") = true
  /\ Aux.noDollar (Server.normalizeLineEndings "x = 1") = true
  /\ Server.applyEdit "let x = 1;" (Server.mkEdit "x = 1" "x = 1")
     = inr "let x = 1;".
Proof.
  split; [reflexivity|]. split; [reflexivity|].
  apply (replacing_text_by_itself "let x = 1;" "x = 1"); reflexivity.
Defined.

Lemma failed_edits_name_first_unmatched_witness :
  let edits := [Server.mkEdit "line2" "LINE2"; Server.mkEdit "absent" "x"] in
  let buffer := Scenario.lines ["line1"; "line2"; EmptyString] in
  Server.applyEdits buffer edits = inl (Server.EditNotFound "absent")
  /\ exists done edit rest reached,
       edits = (done ++ edit :: rest)%list
       /\ Server.applyEdits buffer done = inr reached
       /\ Spec.matchesNeither reached edit
       /\ Server.EditNotFound "absent"
          = Server.EditNotFound (Server.oldText edit).
Proof.
  intros edits buffer. split; [reflexivity|].
  apply (failed_edits_name_first_unmatched buffer edits). reflexivity.
Defined.

Lemma fence_is_shortest_absent_run_witness :
  exists n,
    Server.formatDiff "a ``` b"
    = JsString.repeat "`" n +:+ "diff" +:+ Server.newline +:+ "a ``` b"
      +:+ JsString.repeat "`" n +:+ Server.newline +:+ Server.newline
    /\ 3 <= n
    /\ JsString.includes "a ``` b" (JsString.repeat "`" n) = false
    /\ forall k, 3 <= k < n ->
         JsString.includes "a ``` b" (JsString.repeat "`" k) = true.
Proof. exact (fence_is_shortest_absent_run "a ``` b"). Defined.


(* ===================================================================== *)
(** * Further properties of the validator                                 *)
(* ===================================================================== *)

Section ValidatorExtras.

Import Server.

Variable allowedDirectories : list string.

(** X8. What a successful validation guarantees: the requested path, made
    absolute, begins with an allowed directory, and the path returned is
    either its real path, which begins with an allowed directory too, or
    the absolute path itself, the real path of its parent directory then
    beginning with an allowed directory.  The world is left as it was. *)
Theorem validated_path_guarantees (w w' : Fs.World)
    (requestedPath validPath : string) :
  validatePath allowedDirectories requestedPath w = (Return validPath, w') ->
  let absolute := Aux.absoluteOf w requestedPath in
  w' = w
  /\ isInAllowed allowedDirectories (normalizePath absolute) = true
  /\ ((Fs.realpath w absolute = inr validPath
       /\ isInAllowed allowedDirectories (normalizePath validPath) = true)
      \/ (validPath = absolute
          /\ exists realParentPath,
               Fs.realpath w (NodePath.dirname absolute) = inr realParentPath
               /\ isInAllowed allowedDirectories
                    (normalizePath realParentPath) = true)).
Proof.
  intros H absolute. subst absolute.
  pose proof (validatePath_world _ _ _ _ _ H) as ->. split; [reflexivity|].
  rewrite validatePath_check1 in H.
  unfold tryCatch, bind, query, throw, ret in H. cbv beta in H.
  remember (Aux.absoluteOf w requestedPath) as absolute eqn:Habs.
  clear Habs.
  destruct (isInAllowed allowedDirectories (normalizePath absolute)) eqn:Hc;
    [|discriminate].
  split; [reflexivity|].
  destruct (Fs.realpath w absolute) as [e|realPath] eqn:Hr;
    cbv beta iota in H.
  - destruct (Fs.realpath w (NodePath.dirname absolute))
      as [e'|parent] eqn:Hp; cbv beta iota in H; [discriminate|].
    destruct (isInAllowed allowedDirectories (normalizePath parent)) eqn:Ha;
      cbv beta iota delta [negb] in H; [|discriminate].
    injection H as <-. right. eauto.
  - destruct (isInAllowed allowedDirectories (normalizePath realPath))
      eqn:Ha; cbv beta iota delta [negb] in H.
    + injection H as <-. left. auto.
    + destruct (Fs.realpath w (NodePath.dirname absolute))
        as [e'|parent] eqn:Hp; cbv beta iota in H; [discriminate|].
      destruct (isInAllowed allowedDirectories (normalizePath parent))
        eqn:Hb; cbv beta iota delta [negb] in H; [|discriminate].
      injection H as <-. right. eauto.
Qed.

(** ** Absolute paths *)

Lemma isAbsolute_nonempty (p : string) :
  NodePath.isAbsolute p = true -> JsString.isEmpty p = false.
Proof. now destruct p. Qed.

Lemma resolveArgs_absolute (cwd : string) (args : list string)
    (resolvedPath : string) :
  NodePath.isAbsolute cwd = true ->
  snd (NodePath.resolveArgs (args ++ [cwd]) resolvedPath) = true.
Proof.
  intros Hcwd. revert resolvedPath.
  induction args as [|p args IH]; intros resolvedPath; simpl.
  - now rewrite (isAbsolute_nonempty _ Hcwd), Hcwd.
  - destruct (JsString.isEmpty p); [apply IH|].
    destruct (NodePath.isAbsolute p); [reflexivity | apply IH].
Qed.

Lemma resolve_absolute (cwd : string) (args : list string) :
  NodePath.isAbsolute cwd = true ->
  NodePath.isAbsolute (NodePath.resolve cwd args) = true.
Proof.
  intros Hcwd. unfold NodePath.resolve.
  pose proof (resolveArgs_absolute cwd (rev args) EmptyString Hcwd) as H.
  destruct (NodePath.resolveArgs (rev args ++ [cwd]) EmptyString)
    as [resolvedPath resolvedAbsolute].
  simpl in H. now subst resolvedAbsolute.
Qed.

Lemma normalize_absolute (p : string) :
  NodePath.isAbsolute p = true ->
  NodePath.isAbsolute (NodePath.normalize p) = true.
Proof.
  intros H. unfold NodePath.normalize.
  rewrite (isAbsolute_nonempty _ H), H.
  destruct (JsString.isEmpty _); reflexivity.
Qed.

(** X9. When the working directory of the process is absolute, every
    allowed directory computed from the arguments is an absolute path, and
    so is the path every containment check of [validatePath] is made
    on. *)
Theorem checked_paths_are_absolute (w : Fs.World) :
  NodePath.isAbsolute (Fs.cwd w) = true ->
  (forall args dir,
      In dir (allowedDirectoriesOf w args) ->
      NodePath.isAbsolute dir = true)
  /\ (forall requestedPath,
        NodePath.isAbsolute
          (normalizePath (Aux.absoluteOf w requestedPath)) = true).
Proof.
  intros Hcwd. split.
  - intros args dir Hin. unfold allowedDirectoriesOf in Hin.
    apply in_map_iff in Hin as (arg & <- & _).
    apply normalize_absolute, resolve_absolute, Hcwd.
  - intros requestedPath. unfold Aux.absoluteOf.
    apply normalize_absolute.
    destruct (NodePath.isAbsolute (expandHomeIn _ _));
      apply resolve_absolute, Hcwd.
Qed.

End ValidatorExtras.

Lemma validated_path_guarantees_witness :
  Server.validatePath Scenario.allowed "/sandbox/a.txt" Scenario.notesWorld
  = (Server.Return "/sandbox/a.txt", Scenario.notesWorld)
  /\ Server.isInAllowed Scenario.allowed
       (Server.normalizePath
          (Aux.absoluteOf Scenario.notesWorld "/sandbox/a.txt")) = true.
Proof.
  split; [reflexivity|].
  apply (validated_path_guarantees Scenario.allowed Scenario.notesWorld
           Scenario.notesWorld "/sandbox/a.txt" "/sandbox/a.txt" eq_refl).
Defined.

Lemma checked_paths_are_absolute_witness :
  NodePath.isAbsolute (Fs.cwd Scenario.notesWorld) = true
  /\ NodePath.isAbsolute
       (Server.normalizePath
          (Aux.absoluteOf Scenario.notesWorld "docs/../a.txt")) = true.
Proof.
  split; [reflexivity|].
  apply (proj2 (checked_paths_are_absolute Scenario.notesWorld eq_refl)).
Defined.

(* ===================================================================== *)
(** * Further properties of the handlers                                  *)
(* ===================================================================== *)

Section HandlerExtras.

Import Server.

Variable allowedDirectories : list string.
Variable createTwoFilesPatch :
  string -> string -> string -> string -> string -> string -> string.
Variable errorMessage : error -> string.

(** ** No change without validation *)

(** A handler that begins by validating a path and ends in a changed world
    went past the validation. *)
Lemma bind_validatePath_changed {A : Type} (path : string)
    (k : string -> M A) (w w' : Fs.World) (r : outcome A) :
  bind (validatePath allowedDirectories path) k w = (r, w') ->
  w' <> w ->
  exists validPath,
    validatePath allowedDirectories path w = (Return validPath, w)
    /\ k validPath w = (r, w').
Proof.
  intros H Hne. unfold bind in H.
  destruct (validatePath allowedDirectories path w) as [[v|e|] w1] eqn:Hv;
    pose proof (validatePath_world _ _ _ _ _ Hv) as ->.
  - eauto.
  - injection H as _ <-. congruence.
  - injection H as _ <-. congruence.
Qed.

(** X10. No handler changes the file system before every path it was given
    has passed validation: whenever [write_file], [create_directory],
    [edit_file], [move_file], [copy_file] or [copy_directory] ends in a
    world other than the one it started in, [validatePath] returned for
    each of its path arguments. *)
Theorem change_requires_validation (w w' : Fs.World) :
  w' <> w ->
  let validated path :=
    exists validPath,
      validatePath allowedDirectories path w = (Return validPath, w) in
  (forall path content r,
      write_file allowedDirectories path content w = (r, w') ->
      validated path)
  /\ (forall path r,
        create_directory allowedDirectories path w = (r, w') ->
        validated path)
  /\ (forall path edits dryRun r,
        edit_file allowedDirectories createTwoFilesPatch path edits dryRun w
        = (r, w') ->
        validated path)
  /\ (forall source destination r,
        move_file allowedDirectories source destination w = (r, w') ->
        validated source /\ validated destination)
  /\ (forall source destination r,
        copy_file allowedDirectories source destination w = (r, w') ->
        validated source /\ validated destination)
  /\ (forall fuel source destination recursive r,
        copy_directory allowedDirectories fuel source destination recursive w
        = (r, w') ->
        validated source /\ validated destination).
Proof.
  intros Hne validated. unfold validated.
  assert (Hone : forall A path (k : string -> M A) r,
             bind (validatePath allowedDirectories path) k w = (r, w') ->
             exists validPath,
               validatePath allowedDirectories path w = (Return validPath, w)).
  { intros A path k r H.
    destruct (bind_validatePath_changed path k w w' r H Hne) as (v & Hv & _).
    eauto. }
  assert (Htwo : forall A source destination
                        (k : string -> string -> M A) r,
             bind (validatePath allowedDirectories source)
                  (fun s => bind (validatePath allowedDirectories destination)
                                 (k s)) w = (r, w') ->
             (exists v, validatePath allowedDirectories source w
                        = (Return v, w))
             /\ (exists v, validatePath allowedDirectories destination w
                           = (Return v, w))).
  { intros A source destination k r H.
    destruct (bind_validatePath_changed source _ w w' r H Hne)
      as (v & Hv & H').
    destruct (bind_validatePath_changed destination _ w w' r H' Hne)
      as (v' & Hv' & _).
    eauto. }
  split; [|split; [|split; [|split; [|split]]]].
  - intros path content r H. exact (Hone _ _ _ _ H).
  - intros path r H. exact (Hone _ _ _ _ H).
  - intros path edits dryRun r H. exact (Hone _ _ _ _ H).
  - intros source destination r H.
    exact (Htwo _ _ _ (fun _ _ => _) _ H).
  - intros source destination r H.
    exact (Htwo _ _ _ (fun _ _ => _) _ H).
  - intros fuel source destination recursive r H.
    exact (Htwo _ _ _ (fun _ _ => _) _ H).
Qed.

(** ** Handlers that only read *)

Lemma readOnly_promiseAll {A B : Type} (f : A -> M B) (l : list A) :
  (forall x, Aux.readOnly (f x)) -> Aux.readOnly (promiseAll f l).
Proof.
  intros Hf. induction l as [|x l IH]; simpl; [apply readOnly_ret|].
  apply readOnly_bind; [apply Hf|]. intros y.
  apply readOnly_bind; [exact IH|]. intros ys. apply readOnly_ret.
Qed.

Lemma readOnly_readOne (filePath : string) :
  Aux.readOnly (readOne allowedDirectories errorMessage filePath).
Proof.
  unfold readOne. apply readOnly_tryCatch; [|intros e; apply readOnly_ret].
  apply readOnly_bind; [apply validatePath_readOnly|]. intros validPath.
  apply readOnly_bind; [apply readOnly_query|]. intros content.
  apply readOnly_ret.
Qed.

Lemma readOnly_searchFiles (fuel : nat) (rootPath pattern : string)
    (excludePatterns : list string) :
  Aux.readOnly
    (searchFiles allowedDirectories fuel rootPath pattern excludePatterns).
Proof.
  intros w. unfold searchFiles.
  now destruct (search _ _ _ _ _ _ _ _) as [[u|e|] results].
Qed.

Lemma readOnly_buildTree (fuel : nat) :
  forall currentPath,
    Aux.readOnly (buildTree allowedDirectories fuel currentPath).
Proof.
  induction fuel as [|fuel IH]; intros currentPath; cbn [buildTree].
  - intros w; reflexivity.
  - apply readOnly_bind; [apply validatePath_readOnly|]. intros validPath.
    apply readOnly_bind; [apply readOnly_query|]. intros entries.
    match goal with
    | |- Aux.readOnly (?loop entries []) =>
        enough (forall result, Aux.readOnly (loop entries result)) by auto
    end.
    induction entries as [|entry rest IHe]; intros result.
    + apply readOnly_ret.
    + destruct (Fs.isDirectory entry).
      * apply readOnly_bind; [apply IH|]. intros children. apply IHe.
      * apply IHe.
Qed.

(** X11. The handlers that read never change the file system or its trace,
    whatever they are given and whether they return or throw:
    [read_file], [read_multiple_files], [list_directory], [search_files],
    the tree builder of [directory_tree], and [edit_file] in a dry run. *)
Theorem reading_handlers_change_nothing :
  (forall path, Aux.readOnly (read_file allowedDirectories path))
  /\ (forall paths,
        Aux.readOnly
          (read_multiple_files allowedDirectories errorMessage paths))
  /\ (forall path, Aux.readOnly (list_directory allowedDirectories path))
  /\ (forall fuel path pattern excludePatterns,
        Aux.readOnly
          (search_files allowedDirectories fuel path pattern
             excludePatterns))
  /\ (forall fuel path,
        Aux.readOnly (buildTree allowedDirectories fuel path))
  /\ (forall path edits,
        Aux.readOnly
          (edit_file allowedDirectories createTwoFilesPatch path edits
             true)).
Proof.
  split; [|split; [|split; [|split; [|split]]]].
  - intros path. unfold read_file.
    apply readOnly_bind; [apply validatePath_readOnly|]. intros v.
    apply readOnly_query.
  - intros paths. unfold read_multiple_files.
    apply readOnly_bind;
      [apply readOnly_promiseAll, readOnly_readOne|].
    intros results. apply readOnly_ret.
  - intros path. unfold list_directory.
    apply readOnly_bind; [apply validatePath_readOnly|]. intros v.
    apply readOnly_bind; [apply readOnly_query|]. intros entries.
    apply readOnly_ret.
  - intros fuel path pattern excludePatterns. unfold search_files.
    apply readOnly_bind; [apply validatePath_readOnly|]. intros v.
    apply readOnly_bind; [apply readOnly_searchFiles|]. intros results.
    apply readOnly_ret.
  - intros fuel path. apply readOnly_buildTree.
  - intros path edits. unfold edit_file, applyFileEdits.
    apply readOnly_bind; [apply validatePath_readOnly|]. intros v.
    apply readOnly_bind; [apply readOnly_query|]. intros raw.
    destruct (applyEdits _ edits); [apply readOnly_throw|].
    apply readOnly_bind; [apply readOnly_ret|]. intros _.
    apply readOnly_ret.
Qed.

(** ** Copying from a wrong source *)

Lemma stat_access (w : Fs.World) (p : string) (stats : Fs.Stats) :
  Fs.stat w p = inr stats -> Fs.access w p = inr tt.
Proof.
  unfold Fs.stat, Fs.access. now destruct (Fs.realpath w p).
Qed.

(** X12. [copy_file] refuses a source that cannot be accessed and a source
    that is a directory, each with its own exception, and leaves the file
    system untouched in both cases. *)
Theorem copy_file_refuses_bad_source (w : Fs.World)
    (source destination validSourcePath validDestPath : string) :
  validatePath allowedDirectories source w = (Return validSourcePath, w) ->
  validatePath allowedDirectories destination w = (Return validDestPath, w) ->
  (forall e,
      Fs.access w validSourcePath = inl e ->
      copy_file allowedDirectories source destination w
      = (Throw (SourceNotAccessible source), w))
  /\ (forall stats,
        Fs.stat w validSourcePath = inr stats ->
        Fs.statIsDirectory stats = true ->
        copy_file allowedDirectories source destination w
        = (Throw (SourceIsDirectory source), w)).
Proof.
  intros Hs Hd. split.
  - intros e He. unfold copy_file, bind. rewrite Hs. cbv beta iota.
    rewrite Hd. cbv beta iota.
    unfold tryCatch, query, throw. now rewrite He.
  - intros stats Hst Hdir. unfold copy_file, bind. rewrite Hs.
    cbv beta iota. rewrite Hd. cbv beta iota.
    unfold tryCatch, query, throw, ret.
    rewrite (stat_access _ _ _ Hst). cbv beta iota.
    destruct (Fs.access w validDestPath); cbv beta iota;
      now rewrite Hst, Hdir.
Qed.

(** X13. [copy_directory] never reports that the source is not a directory:
    that exception is thrown inside the [try] whose [catch] replaces it, so
    a source that is a file, like one that does not exist, ends in the
    exception for an inaccessible source directory, the file system
    untouched. *)
Theorem copy_directory_masks_not_a_directory :
  (forall fuel source destination recursive,
      Aux.neverThrows Aux.isSourceNotDirectory
        (copy_directory allowedDirectories fuel source destination
           recursive))
  /\ (forall w fuel source destination recursive validSourcePath
             validDestPath,
        validatePath allowedDirectories source w
        = (Return validSourcePath, w) ->
        validatePath allowedDirectories destination w
        = (Return validDestPath, w) ->
        (forall stats, Fs.stat w validSourcePath = inr stats ->
                       Fs.statIsDirectory stats = false) ->
        copy_directory allowedDirectories fuel source destination
          recursive w
        = (Throw (SourceDirectoryNotAccessible source), w)).
Proof.
  split.
  - intros fuel source destination recursive. unfold copy_directory.
    assert (Hv : forall p, Aux.neverThrows Aux.isSourceNotDirectory
                             (validatePath allowedDirectories p))
      by (intros p; now apply validatePath_neverThrows).
    apply neverThrows_bind; [apply Hv | intros ?].
    apply neverThrows_bind; [apply Hv | intros ?].
    apply neverThrows_bind; [never_throws | intros ?].
    apply neverThrows_bind; [never_throws | intros ?].
    apply neverThrows_bind; [|intros ?; never_throws].
    now apply copyDir_neverThrows.
  - intros w fuel source destination recursive vs vd Hs Hd Hstat.
    unfold copy_directory, bind. rewrite Hs. cbv beta iota.
    rewrite Hd. cbv beta iota.
    unfold tryCatch, query, throw, ret.
    destruct (Fs.stat w vs) as [e|stats] eqn:E; cbv beta iota;
      [reflexivity|].
    now rewrite (Hstat stats eq_refl).
Qed.

(** ** Reading several files *)

Lemma validatePath_finishes (w : Fs.World) (path : string) :
  fst (validatePath allowedDirectories path w) <> OutOfFuel.
Proof.
  destruct (isInAllowed allowedDirectories
              (normalizePath (Aux.absoluteOf w path))) eqn:Hc.
  - destruct (validatePath_after_check1 allowedDirectories w path Hc)
      as [[v ->]| ->]; discriminate.
  - rewrite (validatePath_outside allowedDirectories w path Hc).
    discriminate.
Qed.

Lemma readOne_returns (w : Fs.World) (filePath : string) :
  readOne allowedDirectories errorMessage filePath w
  = (Return (Aux.answer (readOne allowedDirectories errorMessage filePath) w),
     w).
Proof.
  pose proof (readOnly_readOne filePath w) as Hw.
  unfold Aux.answer.
  destruct (readOne allowedDirectories errorMessage filePath w)
    as [[t|e|] w1] eqn:E; simpl in Hw; subst w1; [reflexivity| |];
    exfalso; unfold readOne, tryCatch, bind, query, ret in E;
    pose proof (validatePath_finishes w filePath) as Hf;
    destruct (validatePath allowedDirectories filePath w) as [[v|e'|] w1];
    try discriminate; try (now apply Hf);
    destruct (Fs.readFile w1 v); discriminate.
Qed.

Lemma promiseAll_readOne (w : Fs.World) (paths : list string) :
  promiseAll (readOne allowedDirectories errorMessage) paths w
  = (Return
       (map (fun p =>
               Aux.answer (readOne allowedDirectories errorMessage p) w)
            paths), w).
Proof.
  induction paths as [|p paths IH]; [reflexivity|].
  cbn [promiseAll map]. unfold bind at 1. rewrite readOne_returns.
  unfold bind at 1. rewrite IH. reflexivity.
Qed.

Lemma read_multiple_files_run (w : Fs.World) (paths : list string) :
  read_multiple_files allowedDirectories errorMessage paths w
  = (Return
       (JsString.join itemSeparator
          (map (fun p =>
                  Aux.answer (readOne allowedDirectories errorMessage p) w)
               paths)), w).
Proof.
  unfold read_multiple_files, bind. now rewrite promiseAll_readOne.
Qed.

(** X14. [read_multiple_files] always returns, and its answer is made of
    the answers it gives for each path alone, in order, joined by the
    separator: a path that fails, for instance at validation, yields its
    own error item and changes nothing in the items of the others. *)
Theorem read_multiple_files_isolates_items (w : Fs.World)
    (paths : list string) :
  read_multiple_files allowedDirectories errorMessage paths w
  = (Return
       (JsString.join itemSeparator
          (map (fun p =>
                  Aux.answer
                    (read_multiple_files allowedDirectories errorMessage [p])
                    w)
               paths)), w)
  /\ (forall p e,
        validatePath allowedDirectories p w = (Throw e, w) ->
        Aux.answer
          (read_multiple_files allowedDirectories errorMessage [p]) w
        = p +:+ ": Error - " +:+ errorMessage e)
  /\ (forall p validPath content,
        validatePath allowedDirectories p w = (Return validPath, w) ->
        Fs.readFile w validPath = inr content ->
        Aux.answer
          (read_multiple_files allowedDirectories errorMessage [p]) w
        = p +:+ ":" +:+ newline +:+ content +:+ newline).
Proof.
  assert (Hone : forall p,
             Aux.answer
               (read_multiple_files allowedDirectories errorMessage [p]) w
             = Aux.answer (readOne allowedDirectories errorMessage p) w).
  { intros p. unfold Aux.answer at 1.
    now rewrite read_multiple_files_run. }
  split; [|split].
  - rewrite read_multiple_files_run. f_equal. f_equal. f_equal.
    apply List.map_ext. intros p. now rewrite Hone.
  - intros p e Hv. rewrite Hone. unfold Aux.answer, readOne, tryCatch, bind.
    now rewrite Hv.
  - intros p v content Hv Hr. rewrite Hone.
    unfold Aux.answer, readOne, tryCatch, bind, query. rewrite Hv.
    cbv beta iota. now rewrite Hr.
Qed.

(** ** Writing and reading back *)

Lemma realpath_overwrite (w : Fs.World) (r raw content q : string)
    (ev : Fs.event) :
  Fs.nodes w !! r = Some (Fs.File raw) ->
  Fs.realpath (Fs.record ev (<[r := Fs.File content]> (Fs.nodes w)) w) q
  = Fs.realpath w q.
Proof.
  intros Hr. unfold Fs.realpath, Fs.lookupPath.
  cbn [Fs.record Fs.nodes Fs.cwd].
  destruct (JsString.isEmpty q); [reflexivity|].
  now apply (walk_overwrite _ _ _ raw).
Qed.

(** Validation depends on the world through its lookups, its working
    directory and its home directory only. *)
Lemma validatePath_same_lookups (w1 w2 : Fs.World) (path : string) :
  (forall q, Fs.realpath w2 q = Fs.realpath w1 q) ->
  Fs.cwd w2 = Fs.cwd w1 ->
  Fs.homedir w2 = Fs.homedir w1 ->
  fst (validatePath allowedDirectories path w2)
  = fst (validatePath allowedDirectories path w1).
Proof.
  intros Hreal Hcwd Hhome.
  rewrite !validatePath_check1.
  unfold tryCatch, bind, query, throw, ret. cbv beta.
  assert (Habs : Aux.absoluteOf w2 path = Aux.absoluteOf w1 path)
    by (unfold Aux.absoluteOf; now rewrite Hcwd, Hhome).
  rewrite Habs, !Hreal.
  destruct (isInAllowed _ _); [|reflexivity].
  destruct (Fs.realpath w1 (Aux.absoluteOf w1 path)) as [e|realPath];
    cbv beta iota; rewrite ?Hreal.
  - destruct (Fs.realpath w1 _) as [e'|parent]; cbv beta iota;
      [reflexivity|].
    now destruct (negb _).
  - destruct (negb _); cbv beta iota; rewrite ?Hreal; [|reflexivity].
    destruct (Fs.realpath w1 _) as [e'|parent]; cbv beta iota;
      [reflexivity|].
    now destruct (negb _).
Qed.


(** ** Listing a directory *)

Lemma lacks_append (c : ascii) (a b : string) :
  Aux.lacks c a = true -> Aux.lacks c b = true ->
  Aux.lacks c (a +:+ b) = true.
Proof.
  induction a as [|d a IH]; simpl; intros Ha Hb; [exact Hb|].
  apply andb_true_iff in Ha as [Hd Ha]. now rewrite Hd, IH.
Qed.

Lemma formatEntry_lacks_LF (entry : Fs.Dirent) :
  Aux.lacks LF (Fs.name entry) = true ->
  Aux.lacks LF (formatEntry entry) = true.
Proof.
  intros H. unfold formatEntry.
  apply lacks_append; [now destruct (Fs.isDirectory entry)|].
  now apply lacks_append.
Qed.

(** X16. The listing [list_directory] returns is the entries of the
    validated directory, one line each, [[DIR]] or [[FILE]] before the
    name: it is empty for an empty directory, and cut at line feeds it
    gives back the formatted entries, when no name holds a line feed. *)
Theorem listing_has_one_line_per_entry (w w' : Fs.World)
    (path listing : string) :
  list_directory allowedDirectories path w = (Return listing, w') ->
  exists validPath entries,
    validatePath allowedDirectories path w = (Return validPath, w)
    /\ Fs.readdir w validPath = inr entries
    /\ (entries = [] -> listing = EmptyString)
    /\ (entries <> [] ->
        forallb (fun entry => Aux.lacks LF (Fs.name entry)) entries = true ->
        JsString.split LF listing = map formatEntry entries).
Proof.
  intros H. unfold list_directory, bind, query, ret in H.
  destruct (validatePath allowedDirectories path w) as [[v|e|] w1] eqn:Hv;
    try discriminate.
  pose proof (validatePath_world _ _ _ _ _ Hv) as ->.
  destruct (Fs.readdir w v) as [e|entries] eqn:Hr; [discriminate|].
  injection H as <- <-.
  exists v, entries. split; [reflexivity|]. split; [exact Hr|]. split.
  - intros ->. reflexivity.
  - intros Hne Hnames.
    apply (split_join LF).
    + destruct entries; [congruence | discriminate].
    + clear Hr Hne. induction entries as [|entry entries IH];
        [reflexivity|].
      cbn [forallb map] in *. apply andb_true_iff in Hnames as [H1 H2].
      now rewrite (formatEntry_lacks_LF _ H1), IH.
Qed.

(** ** The directory tree *)

Lemma forallb_app_true {A : Type} (f : A -> bool) (l1 l2 : list A) :
  forallb f l1 = true -> forallb f l2 = true ->
  forallb f (l1 ++ l2) = true.
Proof. intros H1 H2. now rewrite List.forallb_app, H1, H2. Qed.

(** X17. The tree [buildTree] returns has one entry for each entry of the
    validated directory, in order, with its name and its kind, and in the
    whole tree an entry has [children] exactly when it is a directory. *)
Theorem buildTree_mirrors_directory (fuel : nat) :
  forall (w w' : Fs.World) (currentPath : string) (tree : list TreeEntry),
    buildTree allowedDirectories fuel currentPath w = (Return tree, w') ->
    forallb Aux.wellFormed tree = true
    /\ exists validPath entries,
         validatePath allowedDirectories currentPath w
         = (Return validPath, w)
         /\ Fs.readdir w validPath = inr entries
         /\ map Aux.entryName tree = map Fs.name entries
         /\ map Aux.entryIsDirectory tree = map Fs.isDirectory entries.
Proof.
  induction fuel as [|fuel IH]; intros w w' currentPath tree H;
    [discriminate|].
  cbn [buildTree] in H. unfold bind at 1 in H.
  destruct (validatePath allowedDirectories currentPath w)
    as [[v|e|] w1] eqn:Hv; try discriminate.
  pose proof (validatePath_world _ _ _ _ _ Hv) as ->.
  unfold bind at 1, query in H.
  destruct (Fs.readdir w v) as [e|entries] eqn:Hr; [discriminate|].
  cbv beta iota in H.
  enough (Hloop : exists tail,
             tree = ([] ++ tail)%list
             /\ forallb Aux.wellFormed tail = true
             /\ map Aux.entryName tail = map Fs.name entries
             /\ map Aux.entryIsDirectory tail
                = map Fs.isDirectory entries).
  { destruct Hloop as (tail & -> & Hwf & Hn & Hd).
    split; [exact Hwf|]. exists v, entries. auto. }
  match type of H with
  | ?loop entries [] w = _ =>
      enough (Hgen : forall entries result w0,
                 loop entries result w0 = (Return tree, w') ->
                 exists tail,
                   tree = (result ++ tail)%list
                   /\ forallb Aux.wellFormed tail = true
                   /\ map Aux.entryName tail = map Fs.name entries
                   /\ map Aux.entryIsDirectory tail
                      = map Fs.isDirectory entries)
        by exact (Hgen _ _ _ H)
  end.
  clear H Hr entries.
  intros entries.
  induction entries as [|entry rest IHe]; intros result w0 H.
  - injection H as <- _. exists []. rewrite List.app_nil_r. auto.
  - cbn beta iota in H.
    destruct (Fs.isDirectory entry) eqn:Hdir.
    + unfold bind at 1 in H.
      destruct (buildTree allowedDirectories fuel _ w0)
        as [[children|e|] w2] eqn:Hb; try discriminate.
      destruct (IHe _ _ H) as (tail & -> & Hwf & Hn & Hd).
      destruct (IH _ _ _ _ Hb) as [Hchildren _].
      exists (mkTreeEntry (Fs.name entry) directory (Some children) :: tail).
      rewrite <- List.app_assoc. cbn [List.app map forallb Aux.wellFormed
        Aux.entryName Aux.entryIsDirectory].
      rewrite Hchildren, Hwf, Hn, Hd, Hdir. auto.
    + destruct (IHe _ _ H) as (tail & -> & Hwf & Hn & Hd).
      exists (mkTreeEntry (Fs.name entry) file None :: tail).
      rewrite <- List.app_assoc. cbn [List.app map forallb Aux.wellFormed
        Aux.entryName Aux.entryIsDirectory].
      rewrite Hwf, Hn, Hd, Hdir. auto.
Qed.

End HandlerExtras.

Lemma change_requires_validation_witness :
  let w := Scenario.notesWorld in
  let w' :=
    snd (Server.write_file Scenario.allowed "/sandbox/a.txt" "x" w) in
  w' <> w
  /\ exists validPath,
       Server.validatePath Scenario.allowed "/sandbox/a.txt" w
       = (Server.Return validPath, w).
Proof.
  intros w w'.
  assert (Hne : w' <> w).
  { intros E. apply (f_equal Fs.trace) in E. vm_compute in E.
    discriminate. }
  split; [exact Hne|].
  apply (proj1 (change_requires_validation Scenario.allowed
                  Scenario.renderPatch w w' Hne)
           "/sandbox/a.txt" "x"
           (fst (Server.write_file Scenario.allowed "/sandbox/a.txt" "x" w))).
  apply surjective_pairing.
Defined.

Lemma copy_file_refuses_bad_source_witness :
  let w := Scenario.copiesWorld in
  Server.validatePath Scenario.allowed "/sandbox/src" w
  = (Server.Return "/sandbox/src", w)
  /\ Server.validatePath Scenario.allowed "/sandbox/new" w
     = (Server.Return "/sandbox/new", w)
  /\ Fs.stat w "/sandbox/src" = inr (Fs.mkStats true false 0)
  /\ Server.copy_file Scenario.allowed "/sandbox/src" "/sandbox/new" w
     = (Server.Throw (Server.SourceIsDirectory "/sandbox/src"), w).
Proof.
  intros w. split; [reflexivity|]. split; [reflexivity|].
  split; [reflexivity|].
  apply (proj2 (copy_file_refuses_bad_source Scenario.allowed w
                  "/sandbox/src" "/sandbox/new" "/sandbox/src" "/sandbox/new"
                  eq_refl eq_refl)
           (Fs.mkStats true false 0)); reflexivity.
Defined.

Lemma copy_directory_masks_not_a_directory_witness :
  let w := Scenario.copiesWorld in
  Server.validatePath Scenario.allowed "/sandbox/a.txt" w
  = (Server.Return "/sandbox/a.txt", w)
  /\ Server.validatePath Scenario.allowed "/sandbox/new" w
     = (Server.Return "/sandbox/new", w)
  /\ Server.copy_directory Scenario.allowed 3 "/sandbox/a.txt" "/sandbox/new"
       true w
     = (Server.Throw (Server.SourceDirectoryNotAccessible "/sandbox/a.txt"),
        w).
Proof.
  intros w. split; [reflexivity|]. split; [reflexivity|].
  apply (proj2 (copy_directory_masks_not_a_directory Scenario.allowed)
           w 3 "/sandbox/a.txt" "/sandbox/new" true
           "/sandbox/a.txt" "/sandbox/new" eq_refl eq_refl).
  intros stats H. vm_compute in H. now injection H as <-.
Defined.

Lemma read_multiple_files_isolates_items_witness :
  let w := Scenario.notesWorld in
  Server.validatePath Scenario.allowed "/etc/passwd" w
  = (Server.Throw (Server.AccessDeniedOutside "/etc/passwd"), w)
  /\ Aux.answer
       (Server.read_multiple_files Scenario.allowed Scenario.describe
          ["/etc/passwd"]) w
     = "/etc/passwd" +:+ ": Error - "
       +:+ Scenario.describe (Server.AccessDeniedOutside "/etc/passwd").
Proof.
  intros w. split; [reflexivity|].
  apply (proj1 (proj2 (read_multiple_files_isolates_items Scenario.allowed
                         Scenario.describe w [])) "/etc/passwd").
  reflexivity.
Defined.


Lemma listing_has_one_line_per_entry_witness :
  exists listing,
    Server.list_directory Scenario.allowed "/sandbox" Scenario.notesWorld
    = (Server.Return listing, Scenario.notesWorld)
    /\ exists validPath entries,
         Server.validatePath Scenario.allowed "/sandbox" Scenario.notesWorld
         = (Server.Return validPath, Scenario.notesWorld)
         /\ Fs.readdir Scenario.notesWorld validPath = inr entries
         /\ (entries = [] -> listing = EmptyString)
         /\ (entries <> [] ->
             forallb (fun entry => Aux.lacks Server.LF (Fs.name entry))
               entries = true ->
             JsString.split Server.LF listing
             = map Server.formatEntry entries).
Proof.
  eexists. split; [vm_compute; reflexivity|].
  apply (listing_has_one_line_per_entry Scenario.allowed
           Scenario.notesWorld Scenario.notesWorld "/sandbox" _).
  vm_compute. reflexivity.
Defined.

Lemma buildTree_mirrors_directory_witness :
  exists tree,
    Server.buildTree Scenario.allowed 3 "/sandbox" Scenario.projectWorld
    = (Server.Return tree, Scenario.projectWorld)
    /\ forallb Aux.wellFormed tree = true
    /\ map Aux.entryName tree = ["build"].
Proof.
  eexists. split; [vm_compute; reflexivity|].
  match goal with
  | |- forallb _ ?tree = _ /\ _ =>
      destruct (buildTree_mirrors_directory Scenario.allowed 3
                  Scenario.projectWorld Scenario.projectWorld "/sandbox"
                  tree)
        as (Hwf & validPath & entries & Hv & Hr & Hn & _)
  end.
  - vm_compute. reflexivity.
  - split; [exact Hwf|]. reflexivity.
Defined.

(* ===================================================================== *)
(** * Further properties of the search                                    *)
(* ===================================================================== *)

Section SearchExtras.

Import JsString Minimatch Server.

#[local] Arguments Ascii.eqb : simpl never.
#[local] Arguments String.append !s1 s2 : simpl nomatch.

Variable allowedDirectories : list string.

(** ** What the search returns *)

(** X18. Every path [searchFiles] returns is the path of an entry of a
    directory that could be read; it passed validation, no exclude pattern
    matches it relative to the root, and the entry's name contains the
    pattern. *)
Theorem search_results_are_sound (w w' : Fs.World) (fuel : nat)
    (rootPath pattern : string) (excludePatterns results : list string) :
  searchFiles allowedDirectories fuel rootPath pattern excludePatterns w
  = (Return results, w') ->
  forall fullPath,
    In fullPath results ->
    Aux.found allowedDirectories w rootPath pattern excludePatterns fullPath.
Proof.
  intros H fullPath Hin.
  exact (proj1 (List.Forall_forall _ _) (searchFiles_found _ _ _ _ _ _ _ _ H)
           fullPath Hin).
Qed.

(** ** When the search fails *)

(** The loop over the entries catches what is thrown for an entry, the
    exceptions of the search of a subdirectory included: [search] throws
    only where [readdir] does, before the loop. *)
Lemma search_throw_inv (w : Fs.World) (rootPath pattern : string)
    (excludePatterns : list string) (fuel : nat)
    (currentPath : string) (results results' : list string) (e : error) :
  search allowedDirectories fuel w rootPath pattern excludePatterns
    currentPath results = (Throw e, results') ->
  exists errno,
    Fs.readdir w currentPath = inl errno /\ e = SystemError errno.
Proof.
  destruct fuel as [|fuel]; [discriminate|]. cbn [search]. intros H.
  destruct (Fs.readdir w currentPath) as [errno|entries].
  { injection H as <- _. eauto. }
  exfalso. revert results H.
  induction entries as [|entry rest IHe]; intros results H; [discriminate|].
  cbn beta iota zeta in H.
  destruct (fst (validatePath allowedDirectories _ w));
    [|exact (IHe _ H) | discriminate].
  destruct (shouldExclude excludePatterns _); [exact (IHe _ H)|].
  destruct (Fs.isDirectory entry); [|exact (IHe _ H)].
  destruct (search allowedDirectories fuel w rootPath pattern
              excludePatterns _ _) as [[u|e'|] results2];
    [exact (IHe _ H) | exact (IHe _ H) | discriminate].
Qed.

(** X19. [searchFiles] throws only when the root of the search itself
    cannot be read: the exception is the one of [readdir] on the root.
    What is thrown below the root is caught by the loop. *)
Theorem search_fails_only_at_the_root (w w' : Fs.World) (fuel : nat)
    (rootPath pattern : string) (excludePatterns : list string)
    (e : error) :
  searchFiles allowedDirectories fuel rootPath pattern excludePatterns w
  = (Throw e, w') ->
  exists errno,
    Fs.readdir w rootPath = inl errno /\ e = SystemError errno /\ w' = w.
Proof.
  unfold searchFiles. intros H.
  destruct (search allowedDirectories fuel w rootPath pattern
              excludePatterns rootPath []) as [[u|e'|] res] eqn:Hs;
    try discriminate.
  injection H as <- <-.
  destruct (search_throw_inv _ _ _ _ _ _ _ _ _ Hs) as (errno & Hr & ->).
  eauto.
Qed.

(** ** What the search does not miss *)

Lemma search_complete (w : Fs.World) (rootPath pattern : string)
    (excludePatterns : list string) (fuel : nat) :
  forall currentPath results out results',
    search allowedDirectories fuel w rootPath pattern excludePatterns
      currentPath results = (out, results') ->
    out <> OutOfFuel ->
    forall dir entry,
      Aux.visits allowedDirectories w rootPath excludePatterns
        currentPath dir ->
      Aux.qualifies allowedDirectories w rootPath excludePatterns dir entry ->
      nameMatches (Fs.name entry) pattern = true ->
      In (NodePath.join [dir; Fs.name entry]) results'.
Proof.
  induction fuel as [|fuel IH]; intros currentPath results out results' H Hout.
  { injection H as <- _. congruence. }
  cbn [search] in H.
  destruct (Fs.readdir w currentPath) as [errno|entries] eqn:Hrd.
  { intros dir entry Hvis.
    assert (Hno : forall entry',
              ~ Aux.qualifies allowedDirectories w rootPath excludePatterns
                  currentPath entry').
    { intros entry' ((entries & Hr & _) & _). congruence. }
    inversion Hvis as [from|from entry' dir' Hq]; subst;
      intros Hq'; [destruct (Hno _ Hq') | destruct (Hno _ Hq)]. }
  match type of H with
  | ?loop entries results = _ =>
      enough (Hgen : forall es results out results',
                 loop es results = (out, results') ->
                 out <> OutOfFuel ->
                 incl results results'
                 /\ forall entry,
                      In entry es ->
                      (exists validPath,
                         fst (validatePath allowedDirectories
                                (NodePath.join [currentPath; Fs.name entry])
                                w) = Return validPath) ->
                      shouldExclude excludePatterns
                        (NodePath.relative (Fs.cwd w) rootPath
                           (NodePath.join [currentPath; Fs.name entry]))
                      = false ->
                      (nameMatches (Fs.name entry) pattern = true ->
                       In (NodePath.join [currentPath; Fs.name entry])
                          results')
                      /\ (Fs.isDirectory entry = true ->
                          forall dir entry',
                            Aux.visits allowedDirectories w rootPath
                              excludePatterns
                              (NodePath.join [currentPath; Fs.name entry])
                              dir ->
                            Aux.qualifies allowedDirectories w rootPath
                              excludePatterns dir entry' ->
                            nameMatches (Fs.name entry') pattern = true ->
                            In (NodePath.join [dir; Fs.name entry'])
                               results'))
  end.
  { destruct (Hgen _ _ _ _ H Hout) as [_ Hall].
    intros dir entry Hvis Hq Hn.
    inversion Hvis as [from|from entry' dir' Hq' Hd Hvis']; subst.
    - destruct Hq as ((entries' & Hr & Hin) & Hv & Hex).
      assert (entries' = entries) as -> by congruence.
      exact (proj1 (Hall entry Hin Hv Hex) Hn).
    - destruct Hq' as ((entries' & Hr & Hin) & Hv & Hex).
      assert (entries' = entries) as -> by congruence.
      exact (proj2 (Hall entry' Hin Hv Hex) Hd dir entry Hvis' Hq Hn). }
  clear H Hout results out results'. intros es.
  induction es as [|entry rest IHe]; intros results out results' H Hout.
  { injection H as _ <-. split; [apply incl_refl | contradiction]. }
  cbn beta iota zeta in H.
  destruct (fst (validatePath allowedDirectories
                   (NodePath.join [currentPath; Fs.name entry]) w))
    as [validPath|e|] eqn:Hv.
  - destruct (shouldExclude excludePatterns _) eqn:Hex.
    { destruct (IHe _ _ _ H Hout) as [Hincl Hall]. split; [exact Hincl|].
      intros entry0 [<-|Hin] Hv0 Hex0; [congruence | now apply Hall]. }
    remember (if nameMatches (Fs.name entry) pattern
              then (results ++ [NodePath.join [currentPath; Fs.name entry]])%list
              else results) as results1 eqn:E1.
    assert (Hincl1 : incl results results1).
    { subst results1. destruct (nameMatches _ _);
        [apply incl_appl|]; apply incl_refl. }
    assert (Hin1 : nameMatches (Fs.name entry) pattern = true ->
              In (NodePath.join [currentPath; Fs.name entry]) results1).
    { intros Hn. subst results1. rewrite Hn. apply in_or_app. right.
      now left. }
    clear E1.
    destruct (Fs.isDirectory entry) eqn:Hd.
    + destruct (search allowedDirectories fuel w rootPath pattern
                  excludePatterns _ _) as [o results2] eqn:Hs.
      assert (Ho : o <> OutOfFuel).
      { intros ->. injection H as <- _. congruence. }
      assert (Hrest : (fix loop (entries : list Fs.Dirent)
                           (results : list string)
                         : outcome unit * list string := _) rest results2
                      = (out, results'))
        by (destruct o; [exact H | exact H | congruence]).
      clear H.
      destruct (search_appends_found _ _ _ _ _ _ _ _ _ _ Hs)
        as (added2 & E2 & _).
      assert (Hincl2 : incl results1 results2)
        by (subst results2; apply incl_appl, incl_refl).
      destruct (IHe _ _ _ Hrest Hout) as [Hincl Hall]. split.
      { eapply incl_tran; [exact Hincl1|].
        eapply incl_tran; [exact Hincl2 | exact Hincl]. }
      intros entry0 [<-|Hin] Hv0 Hex0; [|now apply Hall]. split.
      * intros Hn. apply Hincl, Hincl2, Hin1, Hn.
      * intros _ dir entry' Hvis Hq Hn. apply Hincl.
        exact (IH _ _ _ _ Hs Ho dir entry' Hvis Hq Hn).
    + destruct (IHe _ _ _ H Hout) as [Hincl Hall]. split.
      { eapply incl_tran; [exact Hincl1 | exact Hincl]. }
      intros entry0 [<-|Hin] Hv0 Hex0; [|now apply Hall]. split.
      * intros Hn. apply Hincl, Hin1, Hn.
      * congruence.
  - destruct (IHe _ _ _ H Hout) as [Hincl Hall]. split; [exact Hincl|].
    intros entry0 [<-|Hin] [v Hv0] Hex0; [congruence | apply Hall; eauto].
  - injection H as <- _. congruence.
Qed.

(** X20. When [searchFiles] returns, its results hold the path of every
    entry that qualifies and whose name contains the pattern, in every
    directory the search goes through from the root. *)
Theorem search_results_are_complete (w w' : Fs.World) (fuel : nat)
    (rootPath pattern : string) (excludePatterns results : list string) :
  searchFiles allowedDirectories fuel rootPath pattern excludePatterns w
  = (Return results, w') ->
  forall dir entry,
    Aux.visits allowedDirectories w rootPath excludePatterns rootPath dir ->
    Aux.qualifies allowedDirectories w rootPath excludePatterns dir entry ->
    nameMatches (Fs.name entry) pattern = true ->
    In (NodePath.join [dir; Fs.name entry]) results.
Proof.
  unfold searchFiles. intros H.
  destruct (search allowedDirectories fuel w rootPath pattern
              excludePatterns rootPath []) as [[u|e|] res] eqn:Hs;
    try discriminate.
  injection H as <- _.
  apply (search_complete _ _ _ _ _ _ _ _ _ Hs). discriminate.
Qed.

(** ** What an exclude pattern without magic hides *)

Lemma hasMagic_includes_star (p : string) :
  hasMagic p = false -> includes p "*" = false.
Proof.
  intros Hm. destruct (includes p "*") eqn:E; [|reflexivity].
  apply includes_occurrence in E as (a & b & ->).
  assert (H : hasMagic (a +:+ "*" +:+ b) = true).
  { clear Hm. induction a as [|c a IHa]; [reflexivity|].
    change (isMagic c || hasMagic (a +:+ "*" +:+ b) = true).
    rewrite IHa. apply orb_true_r. }
  congruence.
Qed.

Lemma noSeparator_lacks (s : string) :
  Aux.noSeparator s = Aux.lacks NodePath.sep s.
Proof. induction s as [|c s IH]; simpl; congruence. Qed.

Lemma dropInnerEmpty_id (l : list string) :
  forallb (fun x => negb (isEmpty x)) l = true -> dropInnerEmpty l = l.
Proof.
  induction l as [|x l IH]; [reflexivity|]. intros H.
  destruct l as [|y l]; [reflexivity|].
  cbn [forallb] in H. apply andb_true_iff in H as [Hx Hrest].
  cbn [dropInnerEmpty]. apply negb_true_iff in Hx. rewrite Hx.
  f_equal. now apply IH.
Qed.

Lemma plainSegment_inv (s : string) :
  Aux.plainSegment s = true ->
  isEmpty s = false /\ Aux.lacks NodePath.sep s = true /\ isDots s = false.
Proof.
  unfold Aux.plainSegment. rewrite !andb_true_iff, !negb_true_iff.
  rewrite noSeparator_lacks. tauto.
Qed.

(** A path written with plain segments is cut back into them. *)
Lemma slashSplit_join (segs : list string) :
  segs <> [] ->
  forallb Aux.plainSegment segs = true ->
  slashSplit (join "/" segs) = segs.
Proof.
  intros Hne Hall. unfold slashSplit.
  change "/" with (String NodePath.sep EmptyString).
  rewrite split_join; [| exact Hne |].
  - destruct segs as [|h t]; [congruence|]. f_equal.
    apply dropInnerEmpty_id. cbn [forallb] in Hall.
    apply andb_true_iff in Hall as [_ Hall].
    apply forallb_forall. intros x Hx.
    apply (proj1 (forallb_forall _ _) Hall) in Hx.
    apply plainSegment_inv in Hx as (Hx & _). now rewrite Hx.
  - apply forallb_forall. intros x Hx.
    apply (proj1 (forallb_forall _ _) Hall) in Hx.
    now apply plainSegment_inv in Hx.
Qed.

(** A [**] that is followed by more of the pattern either stands for
    nothing, or swallows one segment that is neither [.] nor [..]. *)
Lemma matchOne_globstar (q : part) (qs : list part) (x : string)
    (rest : list string) :
  matchOne (GlobStar :: q :: qs) (x :: rest)
  = matchOne (q :: qs) (x :: rest)
    || (negb (isDots x) && matchOne (GlobStar :: q :: qs) rest).
Proof. destruct rest; reflexivity. Qed.

Lemma matchOne_below (p : string) (above below : list string) :
  hasMagic p = false ->
  forallb Aux.plainSegment above = true ->
  forallb Aux.plainSegment below = true ->
  below <> [] ->
  matchOne [GlobStar; Segment p; GlobStar] (above ++ p :: below)%list = true.
Proof.
  intros Hm Ha Hb Hne.
  induction above as [|a above IH]; cbn [List.app];
    rewrite matchOne_globstar.
  - apply orb_true_iff. left.
    cbn [matchOne]. unfold segmentMatch. rewrite Hm, String.eqb_refl.
    destruct below as [|b below]; [congruence|].
    apply forallb_forall. intros x Hx.
    apply (proj1 (forallb_forall _ _) Hb) in Hx.
    apply plainSegment_inv in Hx as (_ & _ & Hx). now rewrite Hx.
  - cbn [forallb] in Ha. apply andb_true_iff in Ha as [Ha Habove].
    apply plainSegment_inv in Ha as (_ & _ & Ha).
    rewrite Ha, (IH Habove). apply orb_true_r.
Qed.

(** An exclude pattern [p] without [*] or [?] becomes the glob [**/p/**],
    which matches every relative path that goes through a segment [p] and
    on to something below it. *)
Lemma shouldExclude_below (excludePatterns : list string) (p : string)
    (above below : list string) :
  In p excludePatterns ->
  hasMagic p = false ->
  Aux.plainSegment p = true ->
  forallb Aux.plainSegment above = true ->
  forallb Aux.plainSegment below = true ->
  below <> [] ->
  shouldExclude excludePatterns (join "/" (above ++ p :: below)) = true.
Proof.
  intros Hin Hm Hp Ha Hb Hne.
  unfold shouldExclude. apply existsb_exists. exists p.
  split; [exact Hin|].
  unfold globPattern. rewrite (hasMagic_includes_star _ Hm).
  unfold minimatch.
  change (isEmpty ("**/" +:+ p +:+ "/**")) with false. cbv iota.
  change ("**/" +:+ p +:+ "/**") with (join "/" ["**"; p; "**"]).
  rewrite (slashSplit_join ["**"; p; "**"]);
    [| discriminate | cbn [forallb]; rewrite Hp; reflexivity].
  rewrite slashSplit_join.
  - cbn [map]. change (parse "**") with GlobStar.
    assert (Hparse : parse p = Segment p).
    { unfold parse. destruct (String.eqb p "**") eqn:E; [|reflexivity].
      apply String.eqb_eq in E. subst p. discriminate. }
    rewrite Hparse. now apply matchOne_below.
  - now destruct above.
  - rewrite forallb_app. cbn [forallb]. now rewrite Ha, Hp, Hb.
Qed.

(** X21. An exclude pattern [p] written without [*] or [?], and within
    the fragment of [minimatch] modelled here, hides all that lies below a
    directory named [p]: a path whose form relative to the root goes
    through a segment [p] and on to at least one more segment is not among
    the results of [searchFiles]. *)
Theorem plain_exclude_hides_what_lies_below (w w' : Fs.World) (fuel : nat)
    (rootPath pattern p fullPath : string)
    (excludePatterns results above below : list string) :
  searchFiles allowedDirectories fuel rootPath pattern excludePatterns w
  = (Return results, w') ->
  In p excludePatterns ->
  inFragment p = true ->
  hasMagic p = false ->
  Aux.plainSegment p = true ->
  forallb Aux.plainSegment above = true ->
  forallb Aux.plainSegment below = true ->
  below <> [] ->
  NodePath.relative (Fs.cwd w) rootPath fullPath
  = join "/" (above ++ p :: below) ->
  ~ In fullPath results.
Proof.
  intros H Hin _ Hm Hp Ha Hb Hne Hrel Hres.
  apply searchFiles_found in H.
  apply (proj1 (List.Forall_forall _ _) H) in Hres.
  destruct Hres as (dir & entry & -> & (_ & _ & Hex) & _).
  rewrite Hrel, (shouldExclude_below _ _ _ _ Hin Hm Hp Ha Hb Hne) in Hex.
  discriminate.
Qed.

End SearchExtras.

(** The search of the log files, and what it finds one directory down. *)
Lemma search_results_are_sound_witness :
  Server.searchFiles Scenario.allowed 3 "/sandbox" "LOG" [] Scenario.logsWorld
  = (Server.Return ["/sandbox/old/app.log"; "/sandbox/app.log"],
     Scenario.logsWorld)
  /\ Aux.found Scenario.allowed Scenario.logsWorld "/sandbox" "LOG" []
       "/sandbox/old/app.log".
Proof.
  assert (H : Server.searchFiles Scenario.allowed 3 "/sandbox" "LOG" []
                Scenario.logsWorld
              = (Server.Return ["/sandbox/old/app.log"; "/sandbox/app.log"],
                 Scenario.logsWorld)) by (vm_compute; reflexivity).
  split; [exact H|].
  apply (search_results_are_sound Scenario.allowed _ _ _ _ _ _ _ H).
  now left.
Defined.

(** A search whose root is a file. *)
Lemma search_fails_only_at_the_root_witness :
  exists errno,
    Fs.readdir Scenario.notesWorld "/sandbox/a.txt" = inl errno
    /\ Server.SystemError Fs.ENOTDIR = Server.SystemError errno
    /\ Scenario.notesWorld = Scenario.notesWorld.
Proof.
  apply (search_fails_only_at_the_root Scenario.allowed Scenario.notesWorld
           Scenario.notesWorld 3 "/sandbox/a.txt" "a" []).
  vm_compute. reflexivity.
Defined.

(** The log file one directory down is not missed. *)
Lemma search_results_are_complete_witness :
  In (NodePath.join ["/sandbox/old"; "app.log"])
     ["/sandbox/old/app.log"; "/sandbox/app.log"].
Proof.
  assert (Hq : forall dir name isDir entries full validPath,
            Fs.readdir Scenario.logsWorld dir = inr entries ->
            In (Fs.mkDirent name isDir) entries ->
            NodePath.join [dir; name] = full ->
            fst (Server.validatePath Scenario.allowed full Scenario.logsWorld)
            = Server.Return validPath ->
            Server.shouldExclude []
              (NodePath.relative "/" "/sandbox" full) = false ->
            Aux.qualifies Scenario.allowed Scenario.logsWorld "/sandbox" []
              dir (Fs.mkDirent name isDir)).
  { intros dir name isDir entries full validPath Hr Hin <- Hv Hex.
    split; [eauto|]. split; [eauto | exact Hex]. }
  apply (search_results_are_complete Scenario.allowed Scenario.logsWorld
           Scenario.logsWorld 3 "/sandbox" "LOG" []
           ["/sandbox/old/app.log"; "/sandbox/app.log"]
           ltac:(vm_compute; reflexivity)
           "/sandbox/old" (Fs.mkDirent "app.log" false)).
  - apply (Aux.visits_below _ _ _ _ "/sandbox" (Fs.mkDirent "old" true)).
    + eapply Hq; [vm_compute; reflexivity | vm_compute; tauto
                 | vm_compute; reflexivity | vm_compute; reflexivity
                 | vm_compute; reflexivity].
    + reflexivity.
    + apply Aux.visits_here.
  - eapply Hq; [vm_compute; reflexivity | vm_compute; tauto
               | vm_compute; reflexivity | vm_compute; reflexivity
               | vm_compute; reflexivity].
  - vm_compute. reflexivity.
Defined.

(** With the exclude pattern ["build"], the file in the [build] directory
    is not returned. *)
Lemma plain_exclude_hides_what_lies_below_witness :
  ~ In "/sandbox/build/out.js" ["/sandbox/build"].
Proof.
  apply (plain_exclude_hides_what_lies_below Scenario.allowed
           Scenario.projectWorld Scenario.projectWorld 3 "/sandbox"
           EmptyString "build" "/sandbox/build/out.js" ["build"]
           ["/sandbox/build"] [] ["out.js"]).
  - vm_compute. reflexivity.
  - now left.
  - reflexivity.
  - reflexivity.
  - reflexivity.
  - reflexivity.
  - reflexivity.
  - discriminate.
  - vm_compute. reflexivity.
Defined.

(* ===================================================================== *)
(** * Further properties of the copy of a file                            *)
(* ===================================================================== *)

Section CopyExtras.

Import Fs Server.

Variable allowedDirectories : list string.

Lemma readFile_stat (w : World) (p content : string) :
  readFile w p = inr content ->
  stat w p = inr (mkStats false true (String.length content)).
Proof.
  intros H. apply readFile_inv in H as (r & Hr & _ & Hl).
  unfold stat. now rewrite Hr, Hl.
Qed.

Lemma creationTarget_existing (w : World) (p raw : string) :
  readFile w p = inr raw ->
  exists r,
    realpath w p = inr r
    /\ nodes w !! r = Some (File raw)
    /\ String.eqb r "/" = false
    /\ creationTarget w p = inr r.
Proof.
  intros H. apply readFile_inv in H as (r & Hr & Hn & Hl).
  exists r. split; [exact Hr|]. split; [exact Hn|]. split.
  - unfold lookupNode in Hl. now destruct (String.eqb r "/").
  - unfold creationTarget. unfold realpath in Hr.
    destruct (JsString.isEmpty p); [discriminate|].
    unfold lookupPath in *. apply walk_allowMissing in Hr.
    now rewrite Hr, Hl.
Qed.

Lemma realpath_record (w : World) (ev : event) (q : string) :
  realpath (record ev (nodes w) w) q = realpath w q.
Proof. reflexivity. Qed.

(** Replacing the content of a file changes no lookup, whatever else the
    calls have added to the trace. *)
Lemma realpath_overwritten (w w' : World) (r old content : string) :
  nodes w !! r = Some (File old) ->
  nodes w' = <[r := File content]> (nodes w) ->
  Fs.cwd w' = Fs.cwd w ->
  forall q, realpath w' q = realpath w q.
Proof.
  intros Hn Hnodes Hcwd q. unfold realpath, lookupPath.
  rewrite Hnodes, Hcwd. destruct (JsString.isEmpty q); [reflexivity|].
  now apply (walk_overwrite _ _ _ old).
Qed.

Lemma validatePath_overwritten (w w' : World)
    (r old content path v : string) :
  nodes w !! r = Some (File old) ->
  nodes w' = <[r := File content]> (nodes w) ->
  Fs.cwd w' = Fs.cwd w ->
  Fs.homedir w' = Fs.homedir w ->
  validatePath allowedDirectories path w = (Return v, w) ->
  validatePath allowedDirectories path w' = (Return v, w').
Proof.
  intros Hn Hnodes Hcwd Hhome Hv.
  destruct (validatePath allowedDirectories path w') as [o w2] eqn:E.
  pose proof (validatePath_world _ _ _ _ _ E) as ->.
  pose proof (validatePath_same_lookups allowedDirectories w w' path) as Hsame.
  rewrite E, Hv in Hsame. cbn [fst] in Hsame.
  rewrite Hsame; [reflexivity | | exact Hcwd | exact Hhome].
  now apply (realpath_overwritten _ _ r old content).
Qed.

(** X22. [copy_file] onto a file that exists replaces it: when
    [read_file] returns for the source and for the destination and
    [copy_file] returns, [read_file] then returns the content of the source
    for the destination, and for the source as before. *)
Theorem copy_file_replaces_existing_file (w w' : World)
    (source destination content old message : string) :
  read_file allowedDirectories source w = (Return content, w) ->
  read_file allowedDirectories destination w = (Return old, w) ->
  copy_file allowedDirectories source destination w = (Return message, w') ->
  message = "Archivo copiado exitosamente de " +:+ source +:+ " a "
            +:+ destination
  /\ read_file allowedDirectories destination w' = (Return content, w')
  /\ read_file allowedDirectories source w' = (Return content, w').
Proof.
  intros Hs Hd Hcopy. unfold read_file, bind, query in Hs, Hd.
  destruct (validatePath allowedDirectories source w)
    as [[vs|e|] w1] eqn:Hvs; try discriminate.
  pose proof (validatePath_world _ _ _ _ _ Hvs) as ->.
  destruct (readFile w vs) as [e|c] eqn:Hrs; [discriminate|].
  injection Hs as ->.
  destruct (validatePath allowedDirectories destination w)
    as [[vd|e|] w1] eqn:Hvd; try discriminate.
  pose proof (validatePath_world _ _ _ _ _ Hvd) as ->.
  destruct (readFile w vd) as [e|c] eqn:Hrd; [discriminate|].
  injection Hd as ->.
  destruct (creationTarget_existing w vd old Hrd)
    as (r & Hr & Hn & Hroot & Hct).
  destruct (readFile_inv w vs content Hrs) as (rs & Hrs' & Hns & Hls).
  assert (Hshape : message = "Archivo copiado exitosamente de " +:+ source
                             +:+ " a " +:+ destination
                   /\ nodes w' = <[r := File content]> (nodes w)
                   /\ Fs.cwd w' = Fs.cwd w /\ Fs.homedir w' = Fs.homedir w).
  { revert Hcopy.
    unfold copy_file, bind, tryCatch, query, throw, ret, command, warn.
    rewrite Hvs. cbv beta iota. rewrite Hvd. cbv beta iota.
    unfold access. rewrite Hrs', Hr. cbv beta iota.
    rewrite (readFile_stat _ _ _ Hrs). cbv beta iota.
    cbn [statIsDirectory]. cbv iota.
    unfold copyFile. rewrite Hrs, Hct. unfold perform at 1.
    destruct (refuses w (CopyFile vs vd)); [discriminate|]. cbv beta iota.
    unfold utimes. rewrite (realpath_overwrite _ _ old) by exact Hn.
    rewrite Hr. unfold perform at 1. cbn [refuses record].
    destruct (refuses w (Utimes vd)); [discriminate|]. cbv beta iota.
    unfold tryCatch, ret, chmod.
    rewrite realpath_record, (realpath_overwrite _ _ old) by exact Hn.
    rewrite Hr. unfold perform. cbn [refuses record].
    destruct (refuses w (Chmod vd)); cbv beta iota;
      intros [= <- <-]; repeat split. }
  destruct Hshape as (Hmessage & Hnodes & Hcwd & Hhome).
  split; [exact Hmessage|]. split.
  - unfold read_file, bind, query.
    rewrite (validatePath_overwritten _ _ _ _ _ _ _ Hn Hnodes Hcwd Hhome Hvd).
    cbv beta iota. unfold readFile.
    rewrite (realpath_overwritten _ _ _ _ _ Hn Hnodes Hcwd), Hr.
    unfold lookupNode. rewrite Hroot, Hnodes.
    now rewrite lookup_insert_eq.
  - unfold read_file, bind, query.
    rewrite (validatePath_overwritten _ _ _ _ _ _ _ Hn Hnodes Hcwd Hhome Hvs).
    cbv beta iota. unfold readFile.
    rewrite (realpath_overwritten _ _ _ _ _ Hn Hnodes Hcwd), Hrs'.
    rewrite Hnodes.
    destruct (String.eqb rs r) eqn:E.
    + apply String.eqb_eq in E. subst rs.
      unfold lookupNode. rewrite Hroot. now rewrite lookup_insert_eq.
    + apply String.eqb_neq in E.
      unfold lookupNode in *. destruct (String.eqb rs "/"); [discriminate|].
      rewrite lookup_insert_ne by congruence. now rewrite Hns.
Qed.

End CopyExtras.

(** Copying [a.txt] onto [b.txt], which exists. *)
Lemma copy_file_replaces_existing_file_witness :
  exists w',
    Server.copy_file Scenario.allowed "/sandbox/a.txt" "/sandbox/b.txt"
      Scenario.copiesWorld
    = (Server.Return
         "Archivo copiado exitosamente de /sandbox/a.txt a /sandbox/b.txt",
       w')
    /\ Server.read_file Scenario.allowed "/sandbox/b.txt" w'
       = (Server.Return "new", w')
    /\ Server.read_file Scenario.allowed "/sandbox/a.txt" w'
       = (Server.Return "new", w').
Proof.
  eexists. split; [vm_compute; reflexivity|].
  match goal with
  | |- Server.read_file _ _ ?w' = _ /\ _ =>
      exact (proj2 (copy_file_replaces_existing_file Scenario.allowed
                      Scenario.copiesWorld w' "/sandbox/a.txt"
                      "/sandbox/b.txt" "new" "old" _
                      ltac:(vm_compute; reflexivity)
                      ltac:(vm_compute; reflexivity)
                      ltac:(vm_compute; reflexivity)))
  end.
Defined.
